(** * Badminton ELO queueing: a shallow embedding of [v1.py] and [v4.py]

    The repository holds successive iterations of one script.  [v1.py] keeps
    the waiting players in a [deque] and pairs the closest ratings; [v3.py]
    and [v4.py] keep them in a [dict] keyed by name and pair the highest
    ratings ([v3.py] and [v4.py] share [Player], [Queue.add_player],
    [Queue.remove_player] and [Queue.create_match] verbatim).

    Conventions of the embedding:
    - Python objects are mutable and shared, so [Player] objects live in a
      heap (a list indexed by address) and queues and matches hold addresses;
    - a Python number is an [int] or a [float]; floats are idealised as real
      numbers (rounding, overflow, infinities and NaN are not modelled);
    - a call either returns or raises; the state reached at the raise is kept. *)

From Stdlib Require Import Reals Lra Lia ZArith Bool Ascii String.
From Stdlib Require Import DecimalString List Permutation Sorted.
From Stdlib Require DecimalPos.
Import ListNotations.

Open Scope string_scope.
Open Scope list_scope.
Open Scope R_scope.

(** ** Python values *)

(** A rating is an [int] (default 1200, or [int(elo)] when loaded) until the
    first update, and a [float] afterwards. *)
Inductive num : Type :=
| PyInt (z : Z)
| PyFloat (r : R).

Definition val (n : num) : R :=
  match n with
  | PyInt z => IZR z
  | PyFloat r => r
  end.

(** A player's [id] is [len(queue.players)] (an [int]) when typed in at the
    prompt, and the text of the first CSV field when loaded. *)
Inductive pyid : Type :=
| IdInt (z : Z)
| IdStr (s : string).

Inductive exn : Type :=
| AttributeError
| KeyError (key : string)
| ValueError
| IndexError.

Inductive result (A : Type) : Type :=
| Return (a : A)
| Raise (e : exn).
Arguments Return {A} a.
Arguments Raise {A} e.

Definition Rltb (x y : R) : bool := if Rlt_dec x y then true else false.
Definition Rgtb (x y : R) : bool := if Rgt_dec x y then true else false.

(** [match_type] is the string ['singles'] or ['doubles']; the prompt passes
    no other value. *)
Inductive match_type : Type := singles | doubles.

(** The number of players a match of the type takes. *)
Definition needed (mt : match_type) : nat :=
  match mt with
  | singles => 2
  | doubles => 4
  end.

(** ** [sorted(xs, key=..., reverse=...)]

    Python's sort is stable, also with [reverse=True]; a stable sort is
    determined by its input, so insertion sort stands for it.  [before ky kx]
    says that an element of key [ky] has to come strictly before one of key
    [kx]. *)
Section PySorted.
Context {A : Type} (key : A -> R) (before : R -> R -> bool).

Fixpoint insert_by (x : A) (l : list A) : list A :=
  match l with
  | [] => [x]
  | y :: ys =>
      if before (key y) (key x) then y :: insert_by x ys else x :: y :: ys
  end.

Fixpoint sort_by (l : list A) : list A :=
  match l with
  | [] => []
  | x :: xs => insert_by x (sort_by xs)
  end.
End PySorted.

Definition sorted {A : Type} (l : list A) (key : A -> R) (reverse : bool) : list A :=
  sort_by key (if reverse then Rgtb else Rltb) l.

(** ** class Player (the same in the three files, [record_match] apart) *)

Inductive match_detail : Type :=
| HistTuple (match_id : nat) (outcome : Z)              (* v1: (self.id, outcome) *)
| HistOpponent (opponent : string) (outcome : Z)        (* v3: singles *)
| HistOpponents (opponents : list string) (outcome : Z). (* v3: doubles *)

Module Player.
Record t : Type := mk {
  id : pyid;
  name : string;
  elo : num;
  availability : bool;
  match_history : list match_detail
}.

(** [Player(id, name, elo=1200)] *)
Definition init (id : pyid) (name : string) (elo : num) : t :=
  mk id name elo true [].

Definition default_elo : num := PyInt 1200.

Definition _elo_expectation (player_elo opponent_elo : R) : R :=
  1 / (1 + Rpower 10 ((opponent_elo - player_elo) / 400)).

Definition _elo_update (K : R) (player_elo expected actual : R) : R :=
  player_elo + K * (actual - expected).

(** [self.calculate_elo(opponent, outcome, K=32)]: the new state of [self].
    [opponent] is read when the call is made. *)
Definition calculate_elo (self opponent : t) (outcome : Z) (K : R) : t :=
  let expected := _elo_expectation (val (elo self)) (val (elo opponent)) in
  mk (id self) (name self)
     (PyFloat (_elo_update K (val (elo self)) expected (IZR outcome)))
     true
     (match_history self).

Definition set_availability (self : t) (b : bool) : t :=
  mk (id self) (name self) (elo self) b (match_history self).

Definition append_history (self : t) (d : match_detail) : t :=
  mk (id self) (name self) (elo self) (availability self)
     (match_history self ++ [d]).
End Player.

Definition K32 : R := 32.

(** ** The heap of [Player] objects *)

Definition addr : Type := nat.
Definition heap : Type := list Player.t.

Definition dangling : Player.t := Player.init (IdStr "") "" (PyInt 0).

(** Python never holds a dangling reference; [deref] outside the heap only
    arises for ill-formed states. *)
Definition deref (h : heap) (a : addr) : Player.t := nth a h dangling.

Fixpoint store (h : heap) (a : addr) (p : Player.t) : heap :=
  match h, a with
  | [], _ => []
  | _ :: t, O => p :: t
  | x :: t, S a' => x :: store t a' p
  end.

Definition alloc (h : heap) (p : Player.t) : heap * addr := (h ++ [p], length h).

Definition elo_at (h : heap) (a : addr) : R := val (Player.elo (deref h a)).

(** [self.calculate_elo(opponent, outcome)] on the object at [self]; the
    opponent object is passed as it is at the call. *)
Definition call_calculate_elo (h : heap) (self : addr) (opponent : Player.t)
    (outcome : Z) : heap :=
  store h self (Player.calculate_elo (deref h self) opponent outcome K32).

(** [[p1, p2]] for singles and [[team1, team2]] for doubles. *)
Inductive participants : Type :=
| Flat (p1 p2 : addr)
| Teams (team1 team2 : list addr).

(** The players of a match. *)
Definition members (ps : participants) : list addr :=
  match ps with
  | Flat p1 p2 => [p1; p2]
  | Teams team1 team2 => team1 ++ team2
  end.

(** [sum([player.elo for player in team])] *)
Definition sum_elo (h : heap) (team : list addr) : R :=
  fold_left (fun acc a => acc + elo_at h a) team 0.

(** The rating part of choice "5" of [prompt_user] (the same lines in the
    three files). *)
Definition update_ratings (h : heap) (players : participants) (outcome : Z) : heap :=
  match players with
  | Flat p0 p1 =>
      let h1 := call_calculate_elo h p0 (deref h p1) outcome in
      call_calculate_elo h1 p1 (deref h1 p0) (1 - outcome)
  | Teams team1 team2 =>
      let team1_avg_elo := sum_elo h team1 / 2 in
      let team2_avg_elo := sum_elo h team2 / 2 in
      let temp_player_team2 :=
        Player.init (IdStr "temp") "temp" (PyFloat team2_avg_elo) in
      let temp_player_team1 :=
        Player.init (IdStr "temp") "temp" (PyFloat team1_avg_elo) in
      let h1 :=
        fold_left (fun h' player => call_calculate_elo h' player temp_player_team2 outcome)
                  team1 h in
      fold_left (fun h' player => call_calculate_elo h' player temp_player_team1 (1 - outcome))
                team2 h1
  end.

(** [range(a, b)] *)
Definition range (a b : nat) : list nat := seq a (b - a).

(** [min_diff] starts as [float('inf')]: [None] stands for it. *)
Definition lt_min (d : R) (min_diff : option R) : bool :=
  match min_diff with
  | None => true
  | Some m => Rltb d m
  end.

Definition addr_eqb (a b : addr) : bool := Nat.eqb a b.

Definition mem (a : addr) (l : list addr) : bool := existsb (addr_eqb a) l.

(** [deque.remove(x)] and [list.remove(x)]: the first occurrence, by object
    identity ([Player] defines no [__eq__]); [None] when there is none
    (Python raises [ValueError]). *)
Fixpoint remove_first (a : addr) (l : list addr) : option (list addr) :=
  match l with
  | [] => None
  | x :: t =>
      if addr_eqb x a then Some t
      else match remove_first a t with
           | Some t' => Some (x :: t')
           | None => None
           end
  end.

Fixpoint dedup (l : list addr) : list addr :=
  match l with
  | [] => []
  | x :: t => if mem x t then dedup t else x :: dedup t
  end.

(** [list(set(xs) - set(ys))].  The order in which Python lists the elements
    of a set is not specified; the order of [xs] stands for it, and what is
    proved about the result is stated up to permutation. *)
Definition set_minus (xs ys : list addr) : list addr :=
  filter (fun a => negb (mem a ys)) (dedup xs).

(** [for a in players: a.availability = False] *)
Definition mark_unavailable (h : heap) (players : list addr) : heap :=
  fold_left (fun h' a => store h' a (Player.set_availability (deref h' a) false))
            players h.

(** ** v1.py *)
Module V1.

Module Match.
Record t : Type := mk {
  id : nat;
  players : participants;
  match_type : match_type;
  outcome : option Z
}.
End Match.

Module Queue.
Record t : Type := mk {
  players : list addr;        (* a deque *)
  matches : list Match.t
}.
Definition init : t := mk [] [].
End Queue.

Record world : Type := mkWorld {
  objects : heap;
  queue : Queue.t
}.

(** [Match.record_outcome]: for a doubles match the elements of
    [self.players] are the two team lists, and a list has no
    [match_history]. *)
Definition record_outcome (m : Match.t) (h : heap) (outcome : Z)
  : result unit * (Match.t * heap) :=
  let m' := Match.mk (Match.id m) (Match.players m) (Match.match_type m) (Some outcome) in
  match Match.players m with
  | Flat p0 p1 =>
      let entry := HistTuple (Match.id m) outcome in
      let h1 := store h p0 (Player.append_history (deref h p0) entry) in
      let h2 := store h1 p1 (Player.append_history (deref h1 p1) entry) in
      (Return tt, (m', h2))
  | Teams _ _ => (Raise AttributeError, (m', h))
  end.

(** [Queue.add_player] *)
Definition add_player (w : world) (player : addr) : world :=
  let q := queue w in
  if Player.availability (deref (objects w) player) then
    mkWorld (objects w)
      (Queue.mk (sorted (Queue.players q ++ [player]) (elo_at (objects w)) false)
                (Queue.matches q))
  else w.

(** [Queue.remove_player] *)
Definition remove_player (w : world) (player : addr) : result unit * world :=
  match remove_first player (Queue.players (queue w)) with
  | Some ps => (Return tt, mkWorld (objects w) (Queue.mk ps (Queue.matches (queue w))))
  | None => (Raise ValueError, w)
  end.

(** The body of the singles loop, for index [i]. *)
Definition singles_step (h : heap) (players_sorted : list addr)
    (st : option R * option (addr * addr)) (i : nat)
  : option R * option (addr * addr) :=
  let a := nth i players_sorted O in
  let b := nth (i + 1) players_sorted O in
  let d := Rabs (elo_at h a - elo_at h b) in
  if lt_min d (fst st) then (Some d, Some (a, b)) else st.

Definition singles_search (h : heap) (players_sorted : list addr)
  : option R * option (addr * addr) :=
  fold_left (singles_step h players_sorted)
            (range 0 (length players_sorted - 1)) (None, None).

(** The body of the innermost doubles loop. *)
Definition doubles_step (h : heap) (players_sorted : list addr) (i j k l : nat)
    (st : option R * option (addr * addr * addr * addr))
  : option R * option (addr * addr * addr * addr) :=
  let team1 := [nth i players_sorted O; nth j players_sorted O] in
  let team2 := [nth k players_sorted O; nth l players_sorted O] in
  let diff := Rabs (sum_elo h team1 - sum_elo h team2) in
  if lt_min diff (fst st)
  then (Some diff, Some (nth i players_sorted O, nth j players_sorted O,
                         nth k players_sorted O, nth l players_sorted O))
  else st.

Definition doubles_search (h : heap) (players_sorted : list addr)
  : option R * option (addr * addr * addr * addr) :=
  let n := length players_sorted in
  fold_left (fun st i =>
    fold_left (fun st j =>
      fold_left (fun st k =>
        fold_left (fun st l => doubles_step h players_sorted i j k l st)
                  (range (k + 1) n) st)
                (range (j + 1) n) st)
              (range (i + 1) n) st)
            (range 0 n) (None, None).

(** [self.players.remove(p)] for each of [ps] in turn; [false] with the
    deque as it is when a [remove] raises. *)
Fixpoint remove_all (ps : list addr) (dq : list addr) : bool * list addr :=
  match ps with
  | [] => (true, dq)
  | p :: rest =>
      match remove_first p dq with
      | Some dq' => remove_all rest dq'
      | None => (false, dq)
      end
  end.

(** [Queue.create_match].  When the search loop never runs its body,
    [p1] is still [None] and [p1.availability = False] raises. *)
Definition create_match (mt : match_type) (w : world)
  : result (option Match.t) * world :=
  let h := objects w in
  let q := queue w in
  if (length (Queue.players q) <? 2)%nat then (Return None, w)
  else
    match mt with
    | singles =>
        let players_sorted := sorted (Queue.players q) (elo_at h) false in
        match snd (singles_search h players_sorted) with
        | None => (Raise AttributeError, w)
        | Some (p1, p2) =>
            let h' := mark_unavailable h [p1; p2] in
            match remove_all [p1; p2] (Queue.players q) with
            | (false, dq) =>
                (Raise ValueError, mkWorld h' (Queue.mk dq (Queue.matches q)))
            | (true, dq) =>
                let m := Match.mk (length (Queue.matches q)) (Flat p1 p2) singles None in
                (Return (Some m), mkWorld h' (Queue.mk dq (Queue.matches q ++ [m])))
            end
        end
    | doubles =>
        let players_sorted := sorted (Queue.players q) (elo_at h) false in
        match snd (doubles_search h players_sorted) with
        | None => (Raise AttributeError, w)
        | Some (p1, p2, p3, p4) =>
            let h' := mark_unavailable h [p1; p2; p3; p4] in
            match remove_all [p1; p2; p3; p4] (Queue.players q) with
            | (false, dq) =>
                (Raise ValueError, mkWorld h' (Queue.mk dq (Queue.matches q)))
            | (true, dq) =>
                let team1 :=
                  if Rgtb (elo_at h' p1 + elo_at h' p2) (elo_at h' p3 + elo_at h' p4)
                  then [p1; p2] else [p1; p3] in
                let team2 := set_minus [p1; p2; p3; p4] team1 in
                let m := Match.mk (length (Queue.matches q)) (Teams team1 team2) doubles None in
                (Return (Some m), mkWorld h' (Queue.mk dq (Queue.matches q ++ [m])))
            end
        end
    end.

(** [queue.matches[match_id]]: a negative index counts from the end. *)
Definition index_of (match_id : Z) (len : nat) : option nat :=
  let i := (if match_id <? 0 then Z.of_nat len + match_id else match_id)%Z in
  if ((0 <=? i) && (i <? Z.of_nat len))%Z then Some (Z.to_nat i) else None.

Fixpoint set_nth {A : Type} (l : list A) (i : nat) (x : A) : list A :=
  match l, i with
  | [], _ => []
  | _ :: t, O => x :: t
  | y :: t, S i' => y :: set_nth t i' x
  end.

(** Choice "5" of [prompt_user]: record a match outcome. *)
Definition record_match_outcome (match_id : Z) (outcome : Z) (w : world)
  : result unit * world :=
  let q := queue w in
  match index_of match_id (length (Queue.matches q)) with
  | None => (Raise IndexError, w)
  | Some i =>
      match nth_error (Queue.matches q) i with
      | None => (Raise IndexError, w)
      | Some m =>
          let '(r, (m', h1)) := record_outcome m (objects w) outcome in
          let q' := Queue.mk (Queue.players q) (set_nth (Queue.matches q) i m') in
          match r with
          | Raise e => (Raise e, mkWorld h1 q')
          | Return _ =>
              (Return tt, mkWorld (update_ratings h1 (Match.players m') outcome) q')
          end
      end
  end.

End V1.

(** ** Text of numbers and the CSV files

    [csv.writer] and [csv.reader] are taken to carry a row of fields
    unchanged (quoting is theirs): a file is the list of its rows and a row
    the list of its fields.  [writerow] applies [str] to a field that is not
    a string. *)

Definition csv_file : Type := list (list string).

(** [str(z)] for an [int]. *)
Definition str_int (z : Z) : string := NilZero.string_of_int (Z.to_int z).

Definition is_space (c : ascii) : bool :=
  let n := nat_of_ascii c in
  ((n =? 32) || ((9 <=? n) && (n <=? 13)) || ((28 <=? n) && (n <=? 31)))%nat.

Definition digit_of (c : ascii) : option Z :=
  let n := nat_of_ascii c in
  if ((48 <=? n) && (n <=? 57))%nat then Some (Z.of_nat (n - 48)) else None.

Fixpoint lstrip (s : string) : string :=
  match s with
  | String c t => if is_space c then lstrip t else s
  | EmptyString => s
  end.

Fixpoint rev_string (s acc : string) : string :=
  match s with
  | EmptyString => acc
  | String c t => rev_string t (String c acc)
  end.

Definition strip (s : string) : string :=
  rev_string (lstrip (rev_string (lstrip s) "")) "".

(** Digits with single underscores between them; [prev] tells whether the
    previous character was a digit. *)
Fixpoint digits (s : string) (acc : Z) (prev : bool) : option Z :=
  match s with
  | EmptyString => if prev then Some acc else None
  | String c t =>
      match digit_of c with
      | Some d => digits t (10 * acc + d)%Z true
      | None =>
          if (Ascii.eqb c "_" && prev)%bool
          then match t with
               | EmptyString => None
               | String c' _ =>
                   match digit_of c' with
                   | Some _ => digits t acc false
                   | None => None
                   end
               end
          else None
      end
  end.

(** [int(s)] for a string of ASCII characters: [None] is [ValueError]. *)
Definition py_int (s : string) : option Z :=
  match strip s with
  | String "-" t => option_map Z.opp (digits t 0%Z false)
  | String "+" t => digits t 0%Z false
  | t => digits t 0%Z false
  end.

Definition str_id (i : pyid) : string :=
  match i with
  | IdInt z => str_int z
  | IdStr s => s
  end.

(** ** v4.py (and v3.py, whose [Queue] is the same) *)
Module V4.

Module Match.
Record t : Type := mk {
  id : nat;
  players : participants;
  match_type : match_type;
  outcome : option Z;
  timestamp : nat;
  score : option string
}.

Definition record_score (m : t) (s : string) : t :=
  mk (id m) (players m) (match_type m) (outcome m) (timestamp m) (Some s).
End Match.

(** A [dict] keeps its keys in insertion order, and [sorted] is stable, so
    the order matters: an association list, in insertion order. *)
Definition dict : Type := list (string * addr).

Fixpoint dict_get (k : string) (d : dict) : option addr :=
  match d with
  | [] => None
  | (k', v) :: t => if String.eqb k' k then Some v else dict_get k t
  end.

(** [d[k] = v]: a present key keeps its place. *)
Fixpoint dict_set (k : string) (v : addr) (d : dict) : dict :=
  match d with
  | [] => [(k, v)]
  | (k', v') :: t =>
      if String.eqb k' k then (k', v) :: t else (k', v') :: dict_set k v t
  end.

(** [del d[k]]: [None] is [KeyError]. *)
Fixpoint dict_del (k : string) (d : dict) : option dict :=
  match d with
  | [] => None
  | (k', v) :: t =>
      if String.eqb k' k then Some t
      else match dict_del k t with
           | Some t' => Some ((k', v) :: t')
           | None => None
           end
  end.

Definition values (d : dict) : list addr := map snd d.
Definition keys (d : dict) : list string := map fst d.

Module Queue.
Record t : Type := mk {
  players : dict;
  matches : list Match.t
}.
Definition init : t := mk [] [].
End Queue.

Record world : Type := mkWorld {
  objects : heap;
  queue : Queue.t
}.

(** [Queue.add_player] *)
Definition add_player (w : world) (player : addr) : world :=
  let q := queue w in
  mkWorld (objects w)
    (Queue.mk (dict_set (Player.name (deref (objects w) player)) player (Queue.players q))
              (Queue.matches q)).

(** [Queue.remove_player] *)
Definition remove_player (w : world) (player_name : string) : result unit * world :=
  match dict_del player_name (Queue.players (queue w)) with
  | Some d => (Return tt, mkWorld (objects w) (Queue.mk d (Queue.matches (queue w))))
  | None => (Raise (KeyError player_name), w)
  end.

(** [self.remove_player(p.name)] for each of [ps] in turn, up to the first
    that raises. *)
Fixpoint remove_players (w : world) (ps : list addr) : result unit * world :=
  match ps with
  | [] => (Return tt, w)
  | p :: rest =>
      match remove_player w (Player.name (deref (objects w) p)) with
      | (Return _, w') => remove_players w' rest
      | (Raise e, w') => (Raise e, w')
      end
  end.

(** [Queue.create_match]; [now] is [datetime.datetime.now()]. *)
Definition create_match (now : nat) (mt : match_type) (w : world)
  : result (option Match.t) * world :=
  let h := objects w in
  let q := queue w in
  if (length (Queue.players q) <? 2)%nat then (Return None, w)
  else
    let players_sorted := sorted (values (Queue.players q)) (elo_at h) true in
    match mt with
    | singles =>
        let p1 := nth 0 players_sorted O in
        let p2 := nth 1 players_sorted O in
        let m := Match.mk (length (Queue.matches q)) (Flat p1 p2) mt None now None in
        match remove_players w [p1; p2] with
        | (Raise e, w') => (Raise e, w')
        | (Return _, w') =>
            (Return (Some m),
             mkWorld (objects w')
               (Queue.mk (Queue.players (queue w')) (Queue.matches (queue w') ++ [m])))
        end
    | doubles =>
        if (length (Queue.players q) <? 4)%nat then (Return None, w)
        else
          let p1 := nth 0 players_sorted O in
          let p2 := nth 1 players_sorted O in
          let p3 := nth 2 players_sorted O in
          let p4 := nth 3 players_sorted O in
          let m := Match.mk (length (Queue.matches q)) (Teams [p1; p2] [p3; p4]) mt None now None in
          match remove_players w [p1; p2; p3; p4] with
          | (Raise e, w') => (Raise e, w')
          | (Return _, w') =>
              (Return (Some m),
               mkWorld (objects w')
                 (Queue.mk (Queue.players (queue w')) (Queue.matches (queue w') ++ [m])))
          end
    end.

(** Choice "1" of [prompt_user] (without the save). *)
Definition prompt_add_player (name : string) (w : world) : world :=
  let id := IdInt (Z.of_nat (length (Queue.players (queue w)))) in
  let '(h, player) := alloc (objects w) (Player.init id name Player.default_elo) in
  add_player (mkWorld h (queue w)) player.

(** Choice "2" of [prompt_user] (without the save): [false] is
    "Player not found.". *)
Definition prompt_remove_player (name : string) (w : world) : result bool * world :=
  match dict_get name (Queue.players (queue w)) with
  | Some _ =>
      match remove_player w name with
      | (Return _, w') => (Return true, w')
      | (Raise e, w') => (Raise e, w')
      end
  | None => (Return false, w)
  end.

(** Choice "6" of [prompt_user]: the player whose stats are printed, or
    [None] for "Player not found.". *)
Definition prompt_view_player (name : string) (w : world) : option Player.t :=
  match dict_get name (Queue.players (queue w)) with
  | Some a => Some (deref (objects w) a)
  | None => None
  end.

Fixpoint set_nth {A : Type} (l : list A) (i : nat) (x : A) : list A :=
  match l, i with
  | [], _ => []
  | _ :: t, O => x :: t
  | y :: t, S i' => y :: set_nth t i' x
  end.

(** Choice "5" of [prompt_user] (without the save): [false] is
    "Invalid match id.".  [match.record_outcome] is commented out in this
    file, so [outcome] stays [None]. *)
Definition record_match_outcome (match_id outcome : Z) (score : string) (w : world)
  : bool * world :=
  let q := queue w in
  if negb ((0 <=? match_id) && (match_id <? Z.of_nat (length (Queue.matches q))))%Z
  then (false, w)
  else
    match nth_error (Queue.matches q) (Z.to_nat match_id) with
    | None => (false, w)
    | Some m =>
        let h := update_ratings (objects w) (Match.players m) outcome in
        (true,
         mkWorld h
           (Queue.mk (Queue.players q)
              (set_nth (Queue.matches q) (Z.to_nat match_id) (Match.record_score m score))))
    end.

Section Persistence.
(** [str(x)] for a [float]: Python's shortest text that reads back as
    [x]; it is not computable on the idealised reals, and is taken as
    given. *)
Variable str_float : R -> string.

Definition str_num (n : num) : string :=
  match n with
  | PyInt z => str_int z
  | PyFloat r => str_float r
  end.

(** [Queue.save_players_to_csv]: the rows written. *)
Definition save_players_to_csv (w : world) : csv_file :=
  map (fun player =>
         let p := deref (objects w) player in
         [str_id (Player.id p); Player.name p; str_num (Player.elo p)])
      (values (Queue.players (queue w))).
End Persistence.

(** [Queue.load_players_from_csv] on the rows of an existing file: the
    first row that raises ends the loop ([except Exception] prints the
    error), keeping what was loaded before it. *)
Fixpoint load_players_from_csv (rows : csv_file) (w : world) : world :=
  match rows with
  | [] => w
  | [id; name; elo] :: rest =>
      match py_int elo with
      | Some z =>
          let '(h, player) := alloc (objects w) (Player.init (IdStr id) name (PyInt z)) in
          load_players_from_csv rest (add_player (mkWorld h (queue w)) player)
      | None => w
      end
  | _ :: _ => w
  end.

(** The [(id, name, rating)] triplets of the registry, ids as text. *)
Definition triplets (w : world) : list (string * string * num) :=
  map (fun player =>
         let p := deref (objects w) player in
         (str_id (Player.id p), Player.name p, Player.elo p))
      (values (Queue.players (queue w))).

Definition empty : world := mkWorld [] Queue.init.

(** The state-changing choices of the [prompt_user] loop, with what the
    user typed already read as a name or an integer. *)
Inductive command : Type :=
| AddPlayer (name : string)                               (* "1" *)
| RemovePlayer (name : string)                            (* "2" *)
| CreateMatch (mt : match_type) (now : nat)               (* "3" and "4" *)
| RecordOutcome (match_id outcome : Z) (score : string).  (* "5" *)

(** One turn of the [while True] loop of [prompt_user]: the state after the
    choice is served. *)
Definition prompt_user (c : command) (w : world) : world :=
  match c with
  | AddPlayer name => prompt_add_player name w
  | RemovePlayer name => snd (prompt_remove_player name w)
  | CreateMatch mt now => snd (create_match now mt w)
  | RecordOutcome match_id outcome score =>
      snd (record_match_outcome match_id outcome score w)
  end.

(** A session: the players file is loaded, then the choices are served in
    turn. *)
Definition session (rows : csv_file) (cs : list command) : world :=
  fold_left (fun w c => prompt_user c w) cs (load_players_from_csv rows empty).

End V4.

(** ** Vocabulary of the statements *)

(** The rating gap of the adjacent pair at positions [i] and [i + 1]. *)
Definition gap (h : heap) (s : list addr) (i : nat) : R :=
  Rabs (elo_at h (nth i s O) - elo_at h (nth (i + 1) s O)).

(** [i] is the first index of [0 .. m-1] whose adjacent gap is the least. *)
Definition first_least_gap (h : heap) (s : list addr) (m i : nat) : Prop :=
  (i < m)%nat /\
  (forall j, (j < m)%nat -> gap h s i <= gap h s j) /\
  (forall j, (j < i)%nat -> gap h s i < gap h s j).

(** The four chosen players stand at increasing positions of the sorted
    pool. *)
Definition chosen_quad (s : list addr) (q : addr * addr * addr * addr) : Prop :=
  exists i j k l,
    (i < j)%nat /\ (j < k)%nat /\ (k < l)%nat /\ (l < length s)%nat /\
    q = (nth i s O, nth j s O, nth k s O, nth l s O).

(** Invariants of the doubles search loop. *)
Definition quad_inv (s : list addr)
    (st : option R * option (addr * addr * addr * addr)) : Prop :=
  forall q, snd st = Some q -> chosen_quad s q.

Definition found {B : Type} (st : option R * option B) : Prop := snd st <> None.

Definition name_at (h : heap) (a : addr) : string := Player.name (deref h a).

(** What every registry built by [add_player] satisfies: a [dict] has each
    key once, every value is a live object, and a player is filed under its
    own name. *)
Definition V4_wf (w : V4.world) : Prop :=
  NoDup (V4.keys (V4.Queue.players (V4.queue w))) /\
  forall k a, In (k, a) (V4.Queue.players (V4.queue w)) ->
    (a < length (V4.objects w))%nat /\ Player.name (deref (V4.objects w) a) = k.

(** What the registry of a session of v4.py satisfies beyond [V4_wf]: the
    registered players have [int] ratings, and no player of a match of the
    ledger is registered. *)
Definition V4_unrated (w : V4.world) : Prop :=
  (forall a, In a (V4.values (V4.Queue.players (V4.queue w))) ->
     exists z, Player.elo (deref (V4.objects w) a) = PyInt z) /\
  (forall m a, In m (V4.Queue.matches (V4.queue w)) ->
     In a (members (V4.Match.players m)) ->
     (a < length (V4.objects w))%nat /\
     ~ In a (V4.values (V4.Queue.players (V4.queue w)))).

(** The registry without the entries of the given names. *)
Definition without (names : list string) (d : V4.dict) : V4.dict :=
  filter (fun e => negb (existsb (String.eqb (fst e)) names)) d.

(** The value of a decimal numeral read from the left, [acc] being the
    value of the digits already read. *)
Fixpoint uint_val (d : Decimal.uint) (acc : Z) : Z :=
  match d with
  | Decimal.Nil => acc
  | Decimal.D0 l => uint_val l (10 * acc + 0)
  | Decimal.D1 l => uint_val l (10 * acc + 1)
  | Decimal.D2 l => uint_val l (10 * acc + 2)
  | Decimal.D3 l => uint_val l (10 * acc + 3)
  | Decimal.D4 l => uint_val l (10 * acc + 4)
  | Decimal.D5 l => uint_val l (10 * acc + 5)
  | Decimal.D6 l => uint_val l (10 * acc + 6)
  | Decimal.D7 l => uint_val l (10 * acc + 7)
  | Decimal.D8 l => uint_val l (10 * acc + 8)
  | Decimal.D9 l => uint_val l (10 * acc + 9)
  end%Z.

Fixpoint nospace (s : string) : bool :=
  match s with
  | EmptyString => true
  | String c t => negb (is_space c) && nospace t
  end.

(** ** The pools of the examples *)

(** Two new players, at the default rating. *)
Definition two_players_1200 : heap :=
  [Player.init (IdInt 0) "A" Player.default_elo;
   Player.init (IdInt 1) "B" Player.default_elo].

(** Three loaded players rated 1000, 1005 and 1200, in the deque of v1.py
    and in the dict of v4.py. *)
Definition players_1000_1005_1200 : heap :=
  [Player.init (IdStr "1") "a" (PyInt 1000);
   Player.init (IdStr "2") "b" (PyInt 1005);
   Player.init (IdStr "3") "c" (PyInt 1200)].

Definition v1_pool_1000_1005_1200 : V1.world :=
  V1.mkWorld players_1000_1005_1200 (V1.Queue.mk [0; 1; 2]%nat []).

Definition v4_pool_1000_1005_1200 : V4.world :=
  V4.mkWorld players_1000_1005_1200
    (V4.Queue.mk [("a", 0%nat); ("b", 1%nat); ("c", 2%nat)] []).

(** Four loaded players rated 1000. *)
Definition players_four_1000 : heap :=
  [Player.init (IdStr "1") "a" (PyInt 1000);
   Player.init (IdStr "2") "b" (PyInt 1000);
   Player.init (IdStr "3") "c" (PyInt 1000);
   Player.init (IdStr "4") "d" (PyInt 1000)].

Definition v1_pool_four_1000 : V1.world :=
  V1.mkWorld players_four_1000 (V1.Queue.mk [0; 1; 2; 3]%nat []).

(** A registry holding one player, named "x" and rated 1500. *)
Definition registry_with_x : V4.world :=
  V4.mkWorld [Player.init (IdStr "7") "x" (PyInt 1500)]
    (V4.Queue.mk [("x", 0%nat)] []).

(** The same registry, and a second [Player] object of the same name that
    is not registered yet. *)
Definition two_players_named_x : V4.world :=
  V4.mkWorld [Player.init (IdStr "7") "x" (PyInt 1500);
              Player.init (IdInt 1) "x" Player.default_elo]
    (V4.Queue.mk [("x", 0%nat)] []).


(** ** v1.py: the prompt loop and the players file *)
Module V1_prompt.

(** Choice "1" of [prompt_user]. *)
Definition prompt_add_player (name : string) (w : V1.world) : V1.world :=
  let id := IdInt (Z.of_nat (length (V1.Queue.players (V1.queue w)))) in
  let '(h, player) := alloc (V1.objects w) (Player.init id name Player.default_elo) in
  V1.add_player (V1.mkWorld h (V1.queue w)) player.

(** [for player in queue.players: if player.name == name: ...; break]: the
    first player of the deque of that name. *)
Fixpoint find_by_name (h : heap) (name : string) (ps : list addr) : option addr :=
  match ps with
  | [] => None
  | p :: rest =>
      if String.eqb (Player.name (deref h p)) name then Some p
      else find_by_name h name rest
  end.

(** Choice "2" of [prompt_user]: [false] is "Player not found.". *)
Definition prompt_remove_player (name : string) (w : V1.world)
  : result bool * V1.world :=
  match find_by_name (V1.objects w) name (V1.Queue.players (V1.queue w)) with
  | Some player_to_remove =>
      match V1.remove_player w player_to_remove with
      | (Return _, w') => (Return true, w')
      | (Raise e, w') => (Raise e, w')
      end
  | None => (Return false, w)
  end.

(** Choice "6" of [prompt_user]: the player whose stats are printed, or
    [None] for "Player not found.". *)
Definition prompt_view_player (name : string) (w : V1.world) : option Player.t :=
  match find_by_name (V1.objects w) name (V1.Queue.players (V1.queue w)) with
  | Some player_to_view => Some (deref (V1.objects w) player_to_view)
  | None => None
  end.

(** [Queue.load_players_from_csv] on the rows of an existing file.  This
    file has no [try]: a row that does not unpack into three fields, or
    whose rating [int] does not read, raises [ValueError] out of the call,
    with the players loaded so far in the queue. *)
Fixpoint load_players_from_csv (rows : csv_file) (w : V1.world)
  : result unit * V1.world :=
  match rows with
  | [] => (Return tt, w)
  | [id; name; elo] :: rest =>
      match py_int elo with
      | Some z =>
          let '(h, player) := alloc (V1.objects w) (Player.init (IdStr id) name (PyInt z)) in
          load_players_from_csv rest (V1.add_player (V1.mkWorld h (V1.queue w)) player)
      | None => (Raise ValueError, w)
      end
  | _ :: _ => (Raise ValueError, w)
  end.

(** [Queue.save_players_to_csv]: the rows written; [str_float] is [str] on
    a [float]. *)
Definition save_players_to_csv (str_float : R -> string) (w : V1.world) : csv_file :=
  map (fun player =>
         let p := deref (V1.objects w) player in
         [str_id (Player.id p); Player.name p; V4.str_num str_float (Player.elo p)])
      (V1.Queue.players (V1.queue w)).

(** The state-changing choices of the [prompt_user] loop, with what the
    user typed already read as a name or an integer. *)
Inductive command : Type :=
| AddPlayer (name : string)               (* "1" *)
| RemovePlayer (name : string)            (* "2" *)
| CreateMatch (mt : match_type)           (* "3" and "4" *)
| RecordOutcome (match_id outcome : Z).   (* "5" *)

(** One turn of the [while True] loop of [prompt_user].  Nothing is caught
    in this file: an exception ends the program. *)
Definition prompt_user (c : command) (w : V1.world) : result unit * V1.world :=
  match c with
  | AddPlayer name => (Return tt, prompt_add_player name w)
  | RemovePlayer name =>
      match prompt_remove_player name w with
      | (Return _, w') => (Return tt, w')
      | (Raise e, w') => (Raise e, w')
      end
  | CreateMatch mt =>
      match V1.create_match mt w with
      | (Return _, w') => (Return tt, w')
      | (Raise e, w') => (Raise e, w')
      end
  | RecordOutcome match_id outcome => V1.record_match_outcome match_id outcome w
  end.

(** The choices served in turn, up to the first that raises. *)
Fixpoint run (cs : list command) (w : V1.world) : result unit * V1.world :=
  match cs with
  | [] => (Return tt, w)
  | c :: rest =>
      match prompt_user c w with
      | (Return _, w') => run rest w'
      | (Raise e, w') => (Raise e, w')
      end
  end.

Definition empty : V1.world := V1.mkWorld [] V1.Queue.init.

(** A session: the players file is loaded, then the choices are served. *)
Definition session (rows : csv_file) (cs : list command) : result unit * V1.world :=
  match load_players_from_csv rows empty with
  | (Return _, w) => run cs w
  | (Raise e, w) => (Raise e, w)
  end.

End V1_prompt.

(** ** v3.py: the match history *)
Module V3.

Module Match.
Record t : Type := mk {
  id : nat;
  players : participants;
  match_type : match_type;
  outcome : option Z
}.
End Match.

(** What [Match.record_outcome] can raise in this file. *)
Inductive raised : Type :=
| NoAttribute      (* AttributeError: a list has no [record_match] *)
| NotSubscriptable (* TypeError: [self.players[0][0]] on a [Player] *)
| OutOfRange.      (* IndexError: a team of fewer than two players *)

(** The argument of [Player.record_match]: one [Player], or a list
    ([isinstance(opponents, list)]). *)
Inductive opponents : Type :=
| One (opponent : addr)
| Several (team : list addr).

(** [Player.record_match] *)
Definition record_match (h : heap) (self : addr) (opps : opponents) (outcome : Z)
  : heap :=
  let match_detail :=
    match opps with
    | Several team =>
        HistOpponents (map (fun opponent => Player.name (deref h opponent)) team) outcome
    | One opponent => HistOpponent (Player.name (deref h opponent)) outcome
    end in
  store h self (Player.append_history (deref h self) match_detail).

(** [team[i].record_match(opps, outcome)], or [IndexError]. *)
Definition record_member (h : heap) (team : list addr) (i : nat) (opps : opponents)
    (outcome : Z) : option heap :=
  match nth_error team i with
  | Some self => Some (record_match h self opps outcome)
  | None => None
  end.

(** [Match.record_outcome]: [None] when it returns, with the match and the
    heap as they are when it returns or raises. *)
Definition record_outcome (m : Match.t) (h : heap) (outcome : Z)
  : option raised * (Match.t * heap) :=
  let m' := Match.mk (Match.id m) (Match.players m) (Match.match_type m) (Some outcome) in
  match Match.match_type m, Match.players m with
  | singles, Flat p0 p1 =>
      let h1 := record_match h p0 (One p1) outcome in
      let h2 := record_match h1 p1 (One p0) (1 - outcome) in
      (None, (m', h2))
  | singles, Teams _ _ => (Some NoAttribute, (m', h))
  | doubles, Flat _ _ => (Some NotSubscriptable, (m', h))
  | doubles, Teams team1 team2 =>
      match record_member h team1 0 (Several team2) outcome with
      | None => (Some OutOfRange, (m', h))
      | Some h1 =>
          match record_member h1 team1 1 (Several team2) outcome with
          | None => (Some OutOfRange, (m', h1))
          | Some h2 =>
              match record_member h2 team2 0 (Several team1) (1 - outcome) with
              | None => (Some OutOfRange, (m', h2))
              | Some h3 =>
                  match record_member h3 team2 1 (Several team1) (1 - outcome) with
                  | None => (Some OutOfRange, (m', h3))
                  | Some h4 => (None, (m', h4))
                  end
              end
          end
      end
  end.

(** Choice "5" of [prompt_user] on the ledger and the heap: [Some false] is
    "Invalid match id.", [None] an exception of [record_outcome] that
    nothing catches. *)
Definition record_match_outcome (match_id outcome : Z) (ledger : list Match.t)
    (h : heap) : option bool * (list Match.t * heap) :=
  if negb ((0 <=? match_id) && (match_id <? Z.of_nat (length ledger)))%Z
  then (Some false, (ledger, h))
  else
    match nth_error ledger (Z.to_nat match_id) with
    | None => (Some false, (ledger, h))
    | Some m =>
        let '(r, (m', h1)) := record_outcome m h outcome in
        let ledger' := V4.set_nth ledger (Z.to_nat match_id) m' in
        match r with
        | Some _ => (None, (ledger', h1))
        | None => (Some true, (ledger', update_ratings h1 (Match.players m') outcome))
        end
    end.

End V3.

(** ** v4.py: the matches file *)
Module V4_matches.


(** [s.split(sep)] for a separator of one character: one more part than
    there are separators. *)
Fixpoint split (sep : ascii) (s : string) : list string :=
  match s with
  | EmptyString => [EmptyString]
  | String c t =>
      if Ascii.eqb c sep then EmptyString :: split sep t
      else match split sep t with
           | part :: parts => String c part :: parts
           | [] => [String c EmptyString]
           end
  end.





Section Files.
(** [str] on a [datetime] and [datetime.fromisoformat] ([None]: it raises
    [ValueError]) are the library's. *)
Variable str_time : nat -> string.
Variable fromisoformat : string -> option nat.



End Files.

End V4_matches.

(** Five loaded players. *)
Definition v4_pool_of_five : V4.world :=
  V4.mkWorld
    [Player.init (IdStr "1") "a" (PyInt 1000);
     Player.init (IdStr "2") "b" (PyInt 1005);
     Player.init (IdStr "3") "c" (PyInt 1200);
     Player.init (IdStr "4") "d" (PyInt 900);
     Player.init (IdStr "5") "e" (PyInt 1100)]
    (V4.Queue.mk [("a", 0%nat); ("b", 1%nat); ("c", 2%nat); ("d", 3%nat); ("e", 4%nat)] []).

(** The state of v1.py after [create_match('singles')] on the pool rated
    1000, 1005 and 1200. *)
Definition v1_after_a_singles_match : V1.world :=
  V1.mkWorld (mark_unavailable players_1000_1005_1200 [0; 1]%nat)
    (V1.Queue.mk [2%nat] [V1.Match.mk 0 (Flat 0%nat 1%nat) singles None]).

(** ** Invariants of the sessions *)

(** The pool of a session of v1.py: distinct live players in ascending
    order of rating, each available and never rated, none of them in a
    match of the ledger. *)
Definition V1_inv (w : V1.world) : Prop :=
  let h := V1.objects w in
  let pool := V1.Queue.players (V1.queue w) in
  NoDup pool /\
  StronglySorted (fun a b => elo_at h a <= elo_at h b) pool /\
  (forall a, In a pool ->
     (a < length h)%nat /\ Player.availability (deref h a) = true /\
     exists z, Player.elo (deref h a) = PyInt z) /\
  (forall m a, In m (V1.Queue.matches (V1.queue w)) ->
     In a (members (V1.Match.players m)) ->
     (a < length h)%nat /\ ~ In a pool).

(** A match as [create_match] of v1.py builds it: a pair of players when
    its type is singles, a pair of teams when it is doubles.  Choice "5"
    looks at [match_type] to choose the rating update and at [players] to
    apply it. *)
Definition V1_shaped (m : V1.Match.t) : Prop :=
  match V1.Match.match_type m, V1.Match.players m with
  | singles, Flat _ _ => True
  | doubles, Teams _ _ => True
  | _, _ => False
  end.

(** A match as [create_match] of v4.py builds it: two players for singles,
    two teams of two for doubles, all distinct. *)
Definition well_shaped (m : V4.Match.t) : Prop :=
  NoDup (members (V4.Match.players m)) /\
  match V4.Match.match_type m, V4.Match.players m with
  | singles, Flat _ _ => True
  | doubles, Teams [_; _] [_; _] => True
  | _, _ => False
  end.

(** The ledger of a session of v4.py that starts without a matches file:
    the id of a match is its index, no match has an outcome, every match is
    well shaped and no player is in two matches. *)
Definition V4_ledger_inv (w : V4.world) : Prop :=
  let ledger := V4.Queue.matches (V4.queue w) in
  (forall i m, nth_error ledger i = Some m ->
     V4.Match.id m = i /\ V4.Match.outcome m = None /\ well_shaped m) /\
  (forall i j mi mj a,
     nth_error ledger i = Some mi -> nth_error ledger j = Some mj ->
     In a (members (V4.Match.players mi)) -> In a (members (V4.Match.players mj)) ->
     i = j).



(** ** The doubles search of v1.py, by positions *)

Definition quad : Type := (nat * nat * nat * nat)%type.

(** [i < j < k < l < n]: what the four nested loops range over. *)
Definition increasing (n : nat) (q : quad) : Prop :=
  let '(i, j, k, l) := q in (i < j)%nat /\ (j < k)%nat /\ (k < l)%nat /\ (l < n)%nat.

Definition quad_players (s : list addr) (q : quad) : addr * addr * addr * addr :=
  let '(i, j, k, l) := q in (nth i s O, nth j s O, nth k s O, nth l s O).

(** The difference the loop body computes for the positions [i, j, k, l]:
    the pair at [i, j] against the pair at [k, l]. *)
Definition quad_diff (h : heap) (s : list addr) (q : quad) : R :=
  let '(i, j, k, l) := q in
  Rabs (sum_elo h [nth i s O; nth j s O] - sum_elo h [nth k s O; nth l s O]).

(** The loop invariant: [min_diff] is the difference of the positions kept,
    and no position visited so far ([visited]) has a smaller one. *)
Definition search_inv (h : heap) (s : list addr) (visited : quad -> Prop)
    (st : option R * option (addr * addr * addr * addr)) : Prop :=
  (forall q, visited q -> exists d, fst st = Some d /\ d <= quad_diff h s q) /\
  match fst st with
  | None => snd st = None
  | Some d =>
      exists q, increasing (length s) q /\ snd st = Some (quad_players s q) /\
                d = quad_diff h s q
  end.

(** * Properties *)

(** ** The heap *)

Lemma store_length (h : heap) (a : addr) (p : Player.t) :
  length (store h a p) = length h.
Proof.
  revert a; induction h as [|x t IH]; intros [|a]; simpl; auto.
Qed.

Lemma deref_store_same (h : heap) (a : addr) (p : Player.t) :
  (a < length h)%nat -> deref (store h a p) a = p.
Proof.
  unfold deref. revert a; induction h as [|x t IH]; intros [|a] Hlt; simpl in *;
    try lia; auto.
  apply IH; lia.
Qed.

Lemma deref_store_other (h : heap) (a b : addr) (p : Player.t) :
  a <> b -> deref (store h a p) b = deref h b.
Proof.
  unfold deref. revert a b; induction h as [|x t IH]; intros [|a] [|b] Hne; simpl;
    try congruence; auto.
Qed.

Lemma elo_at_store_other (h : heap) (a b : addr) (p : Player.t) :
  a <> b -> elo_at (store h a p) b = elo_at h b.
Proof. intros; unfold elo_at; now rewrite deref_store_other. Qed.

Lemma elo_at_call_same (h : heap) (a : addr) (opp : Player.t) (o : Z) :
  (a < length h)%nat ->
  elo_at (call_calculate_elo h a opp o) a =
  Player._elo_update K32 (elo_at h a)
    (Player._elo_expectation (elo_at h a) (val (Player.elo opp))) (IZR o).
Proof.
  intros Hlt. unfold call_calculate_elo, elo_at.
  rewrite deref_store_same by assumption. reflexivity.
Qed.

Lemma call_length (h : heap) (a : addr) (opp : Player.t) (o : Z) :
  length (call_calculate_elo h a opp o) = length h.
Proof. apply store_length. Qed.

Lemma availability_call_same (h : heap) (a : addr) (opp : Player.t) (o : Z) :
  (a < length h)%nat ->
  Player.availability (deref (call_calculate_elo h a opp o) a) = true.
Proof.
  intros Hlt. unfold call_calculate_elo.
  rewrite deref_store_same by assumption. reflexivity.
Qed.

(** ** The rating model *)

Lemma Rpower10_pos (x : R) : 0 < Rpower 10 x.
Proof. unfold Rpower. apply exp_pos. Qed.



Lemma expectation_equal : forall a, Player._elo_expectation a a = 1 / 2.
Proof.
  intros a. unfold Player._elo_expectation.
  replace ((a - a) / 400) with 0 by lra.
  rewrite Rpower_O by lra. lra.
Qed.

Lemma expectation_lt_half (a b : R) :
  a < b -> Player._elo_expectation a b < 1 / 2.
Proof.
  intros Hlt. unfold Player._elo_expectation.
  assert (H1 : 1 < Rpower 10 ((b - a) / 400)).
  { rewrite <- (Rpower_O 10) by lra.
    apply Rpower_lt; lra. }
  apply Rmult_lt_reg_r with (r := 2 * (1 + Rpower 10 ((b - a) / 400))); [lra|].
  field_simplify; lra.
Qed.

(** ** Recording a singles outcome *)

(** C2. For a singles match between A and B both rated 1200, recording
    outcome 1 raises A's rating by exactly 16; B is updated second, against
    A's already updated rating 1216, and so loses
    [32 * expected(1200, 1216)], which is strictly less than 16. *)
Theorem singles_1200_outcome_1 (h : heap) (a b : addr) :
  (a < length h)%nat -> (b < length h)%nat -> a <> b ->
  elo_at h a = 1200 -> elo_at h b = 1200 ->
  let h' := update_ratings h (Flat a b) 1 in
  elo_at h' a = 1200 + 16 /\
  elo_at h' b = 1200 - 32 * Player._elo_expectation 1200 1216 /\
  1200 - 16 < elo_at h' b.
Proof.
  intros Ha Hb Hne Hea Heb h'. subst h'. unfold update_ratings.
  set (h1 := call_calculate_elo h a (deref h b) 1).
  assert (E1 : elo_at h1 a = 1216).
  { unfold h1. rewrite elo_at_call_same by assumption.
    fold (elo_at h b). rewrite Hea, Heb, expectation_equal.
    unfold Player._elo_update, K32. lra. }
  assert (E2 : elo_at h1 b = 1200).
  { unfold h1, call_calculate_elo. rewrite elo_at_store_other by assumption.
    assumption. }
  assert (E3 : elo_at (call_calculate_elo h1 b (deref h1 a) (1 - 1)) b =
               1200 - 32 * Player._elo_expectation 1200 1216).
  { rewrite elo_at_call_same by (unfold h1; rewrite call_length; assumption).
    fold (elo_at h1 a). rewrite E1, E2.
    unfold Player._elo_update, K32. simpl. lra. }
  split; [|split].
  - unfold call_calculate_elo at 1. rewrite elo_at_store_other by congruence.
    rewrite E1. lra.
  - exact E3.
  - rewrite E3.
    pose proof (expectation_lt_half 1200 1216 ltac:(lra)). lra.
Qed.

Lemma singles_1200_outcome_1_witness :
  let h' := update_ratings two_players_1200 (Flat 0%nat 1%nat) 1 in
  elo_at h' 0%nat = 1200 + 16 /\
  elo_at h' 1%nat = 1200 - 32 * Player._elo_expectation 1200 1216 /\
  1200 - 16 < elo_at h' 1%nat.
Proof.
  apply (singles_1200_outcome_1 two_players_1200 0%nat 1%nat);
    simpl; try lia; reflexivity.
Defined.

(** ** Recording a doubles outcome *)


Lemma sum_elo_pair (h : heap) (a b : addr) :
  sum_elo h [a; b] = elo_at h a + elo_at h b.
Proof. unfold sum_elo; simpl; lra. Qed.


(** ** [sorted] *)

Section SortFacts.
Context {A : Type} (key : A -> R) (before : R -> R -> bool) (le : R -> R -> Prop).
Hypothesis before_true : forall x y, before x y = true -> le x y.
Hypothesis before_false : forall x y, before x y = false -> le y x.
Hypothesis le_trans : forall x y z, le x y -> le y z -> le x z.

Lemma insert_by_perm (x : A) (l : list A) :
  Permutation (insert_by key before x l) (x :: l).
Proof.
  induction l as [|y ys IH]; simpl; auto.
  destruct (before (key y) (key x)); auto.
  rewrite IH. apply perm_swap.
Qed.

Lemma sort_by_perm (l : list A) : Permutation (sort_by key before l) l.
Proof.
  induction l as [|x xs IH]; simpl; auto.
  rewrite insert_by_perm. now constructor.
Qed.

Lemma insert_by_sorted (x : A) (l : list A) :
  StronglySorted (fun a b => le (key a) (key b)) l ->
  StronglySorted (fun a b => le (key a) (key b)) (insert_by key before x l).
Proof.
  induction 1 as [|y ys Hs IH Hall]; simpl.
  - repeat constructor.
  - destruct (before (key y) (key x)) eqn:E.
    + constructor; auto.
      apply Forall_forall. intros z Hz.
      apply (Permutation_in _ (insert_by_perm x ys)) in Hz.
      destruct Hz as [<-|Hz]; [now apply before_true|].
      rewrite Forall_forall in Hall. now apply Hall.
    + constructor; [now constructor|].
      constructor; [now apply before_false|].
      apply Forall_forall. intros z Hz. rewrite Forall_forall in Hall.
      apply le_trans with (key y); [now apply before_false | now apply Hall].
Qed.

Lemma sort_by_sorted (l : list A) :
  StronglySorted (fun a b => le (key a) (key b)) (sort_by key before l).
Proof.
  induction l as [|x xs IH]; simpl; [constructor | now apply insert_by_sorted].
Qed.
End SortFacts.

Lemma Rltb_true (x y : R) : Rltb x y = true -> x <= y.
Proof. unfold Rltb; destruct (Rlt_dec x y); [lra | discriminate]. Qed.

Lemma Rltb_false (x y : R) : Rltb x y = false -> y <= x.
Proof. unfold Rltb; destruct (Rlt_dec x y); [discriminate | lra]. Qed.

Lemma Rgtb_true (x y : R) : Rgtb x y = true -> x >= y.
Proof. unfold Rgtb; destruct (Rgt_dec x y); [lra | discriminate]. Qed.

Lemma Rgtb_false (x y : R) : Rgtb x y = false -> y >= x.
Proof. unfold Rgtb; destruct (Rgt_dec x y); [discriminate | lra]. Qed.

Lemma sorted_perm {A : Type} (l : list A) (key : A -> R) (reverse : bool) :
  Permutation (sorted l key reverse) l.
Proof. apply sort_by_perm. Qed.

Lemma sorted_length {A : Type} (l : list A) (key : A -> R) (reverse : bool) :
  length (sorted l key reverse) = length l.
Proof. apply Permutation_length, sorted_perm. Qed.

Lemma sorted_ascending {A : Type} (l : list A) (key : A -> R) :
  StronglySorted (fun a b => key a <= key b) (sorted l key false).
Proof.
  unfold sorted.
  apply (sort_by_sorted key Rltb Rle Rltb_true Rltb_false).
  intros; lra.
Qed.

Lemma sorted_descending {A : Type} (l : list A) (key : A -> R) :
  StronglySorted (fun a b => key a >= key b) (sorted l key true).
Proof.
  unfold sorted.
  apply (sort_by_sorted key Rgtb Rge Rgtb_true Rgtb_false).
  intros; lra.
Qed.

Lemma StronglySorted_nth {A : Type} (R0 : A -> A -> Prop) (l : list A) (d : A) :
  StronglySorted R0 l ->
  forall i j, (i < j)%nat -> (j < length l)%nat -> R0 (nth i l d) (nth j l d).
Proof.
  induction 1 as [|x xs Hs IH Hall]; intros i j Hij Hj; simpl in *; [lia|].
  destruct j as [|j]; [lia|]. destruct i as [|i].
  - rewrite Forall_forall in Hall. apply Hall, nth_In. lia.
  - apply IH; lia.
Qed.

Lemma NoDup_nth_neq (l : list addr) (i j : nat) :
  NoDup l -> (i < length l)%nat -> (j < length l)%nat -> i <> j ->
  nth i l O <> nth j l O.
Proof.
  intros Hnd Hi Hj Hne Heq. apply Hne.
  now apply (proj1 (NoDup_nth l O) Hnd).
Qed.

(** ** v1.py: the singles search *)

Lemma singles_loop_spec (h : heap) (s : list addr) (m : nat) :
  exists i,
    first_least_gap h s (S m) i /\
    fold_left (V1.singles_step h s) (seq 0 (S m)) (None, None) =
    (Some (gap h s i), Some (nth i s O, nth (i + 1) s O)).
Proof.
  induction m as [|m [i [[Hi [Hle Hlt]] Hfold]]].
  - exists O. split.
    + repeat split; intros; try lia.
      replace j with O by lia. lra.
    + reflexivity.
  - rewrite seq_S, fold_left_app, Hfold. simpl.
    unfold V1.singles_step at 1. cbn [fst lt_min]. fold (gap h s (S m)).
    unfold Rltb. destruct (Rlt_dec (gap h s (S m)) (gap h s i)) as [Hl|Hn].
    + exists (S m). split; [|reflexivity].
      repeat split; intros; try lia.
      * destruct (Nat.eq_dec j (S m)) as [->|]; [lra|].
        specialize (Hle j ltac:(lia)). lra.
      * destruct (Nat.lt_ge_cases j i) as [Hji|Hji].
        -- specialize (Hlt j Hji). lra.
        -- specialize (Hle j ltac:(lia)). lra.
    + exists i. split; [|reflexivity].
      repeat split; intros; try lia; auto.
      destruct (Nat.eq_dec j (S m)) as [->|]; [lra|].
      apply Hle; lia.
Qed.

Lemma singles_search_spec (h : heap) (s : list addr) :
  (2 <= length s)%nat ->
  exists i,
    first_least_gap h s (length s - 1) i /\
    V1.singles_search h s =
    (Some (gap h s i), Some (nth i s O, nth (i + 1) s O)).
Proof.
  intros Hlen. unfold V1.singles_search, range.
  replace (length s - 1 - 0)%nat with (S (length s - 2)) by lia.
  replace (length s - 1)%nat with (S (length s - 2)) by lia.
  apply singles_loop_spec.
Qed.

(** ** Removing from the deque *)

Lemma addr_eqb_eq (a b : addr) : addr_eqb a b = true <-> a = b.
Proof. apply Nat.eqb_eq. Qed.

Lemma remove_first_in (a : addr) (l : list addr) :
  In a l -> exists l', remove_first a l = Some l' /\ Permutation (a :: l') l.
Proof.
  induction l as [|x t IH]; simpl; [tauto|].
  intros Hin. destruct (addr_eqb x a) eqn:E.
  - apply addr_eqb_eq in E; subst. eauto.
  - destruct Hin as [->|Hin].
    + rewrite (proj2 (addr_eqb_eq a a) eq_refl) in E. discriminate.
    + destruct (IH Hin) as [l' [-> Hp]]. exists (x :: l'). split; auto.
      rewrite perm_swap. now constructor.
Qed.

Lemma remove_first_not_in (a : addr) (l : list addr) :
  ~ In a l -> remove_first a l = None.
Proof.
  induction l as [|x t IH]; simpl; auto.
  intros Hn. destruct (addr_eqb x a) eqn:E.
  - apply addr_eqb_eq in E. tauto.
  - rewrite IH; tauto.
Qed.

(** Removing distinct members one after the other succeeds and leaves the
    rest. *)
Lemma remove_all_spec (ps dq : list addr) :
  NoDup ps -> incl ps dq ->
  exists dq', V1.remove_all ps dq = (true, dq') /\ Permutation (ps ++ dq') dq.
Proof.
  revert dq; induction ps as [|p rest IH]; intros dq Hnd Hincl; simpl.
  - eauto.
  - inversion Hnd as [|? ? Hnin Hnd']; subst.
    destruct (remove_first_in p dq) as [dq1 [-> Hp]]; [apply Hincl; now left|].
    destruct (IH dq1 Hnd') as [dq' [-> Hp']].
    + intros x Hx.
      assert (Hxd : In x (p :: dq1))
        by (apply (Permutation_in _ (Permutation_sym Hp)), Hincl; now right).
      destruct Hxd as [<-|]; [contradiction | assumption].
    + exists dq'. split; auto.
      rewrite <- Hp. now constructor.
Qed.

(** ** v1.py: [create_match('singles')] *)

Lemma V1_create_singles_spec (w : V1.world) :
  let h := V1.objects w in
  let pool := V1.Queue.players (V1.queue w) in
  let ledger := V1.Queue.matches (V1.queue w) in
  let s := sorted pool (elo_at h) false in
  NoDup pool -> (2 <= length pool)%nat ->
  exists i dq,
    first_least_gap h s (length s - 1) i /\
    elo_at h (nth i s O) <= elo_at h (nth (i + 1) s O) /\
    nth i s O <> nth (i + 1) s O /\
    Permutation (nth i s O :: nth (i + 1) s O :: dq) pool /\
    let m := V1.Match.mk (length ledger) (Flat (nth i s O) (nth (i + 1) s O)) singles None in
    V1.create_match singles w =
    (Return (Some m),
     V1.mkWorld (mark_unavailable h [nth i s O; nth (i + 1) s O])
                (V1.Queue.mk dq (ledger ++ [m]))).
Proof.
  intros h pool ledger s Hnd Hlen.
  assert (Hls : length s = length pool) by apply sorted_length.
  assert (Hps : Permutation s pool) by apply sorted_perm.
  destruct (singles_search_spec h s) as [i [Hfirst Hsearch]]; [lia|].
  pose proof Hfirst as [Hi _].
  assert (Hnds : NoDup s) by (apply (Permutation_NoDup (Permutation_sym Hps)); assumption).
  assert (Hne : nth i s O <> nth (i + 1) s O)
    by (apply NoDup_nth_neq; auto; lia).
  destruct (remove_all_spec [nth i s O; nth (i + 1) s O] pool) as [dq [Hrem Hperm]].
  { repeat constructor; simpl; intuition. }
  { intros x [<-|[<-|[]]]; apply (Permutation_in _ Hps), nth_In; lia. }
  exists i, dq. repeat split; try apply Hfirst; auto.
  - apply (StronglySorted_nth _ s O (sorted_ascending pool (elo_at h))); lia.
  - unfold V1.create_match. fold h pool ledger.
    replace (length pool <? 2)%nat with false by (symmetry; apply Nat.ltb_ge; lia).
    fold s. rewrite Hsearch. cbn [snd]. rewrite Hrem. reflexivity.
Qed.

(** ** v1.py: the doubles search *)

Lemma fold_left_preserves {S X : Type} (P : S -> Prop) (f : S -> X -> S) (l : list X) :
  (forall st x, In x l -> P st -> P (f st x)) ->
  forall st, P st -> P (fold_left f l st).
Proof.
  induction l as [|x t IH]; simpl; intros Hf st Hst; auto.
Qed.

Lemma in_range (x a b : nat) : In x (range a b) -> (a <= x < b)%nat.
Proof. unfold range. rewrite in_seq. lia. Qed.

Lemma range_cons (a b : nat) : (a < b)%nat -> range a b = a :: range (S a) b.
Proof.
  intros Hlt. unfold range.
  replace (b - a)%nat with (S (b - S a)) by lia. reflexivity.
Qed.

Lemma doubles_step_inv (h : heap) (s : list addr) (i j k l : nat) st :
  (i < j)%nat -> (j < k)%nat -> (k < l)%nat -> (l < length s)%nat ->
  quad_inv s st -> quad_inv s (V1.doubles_step h s i j k l st).
Proof.
  intros Hij Hjk Hkl Hl Hinv. unfold V1.doubles_step.
  destruct (lt_min _ (fst st)); auto.
  intros q Hq. simpl in Hq. injection Hq as <-.
  exists i, j, k, l. auto.
Qed.

Lemma doubles_step_found (h : heap) (s : list addr) (i j k l : nat) st :
  found st -> found (V1.doubles_step h s i j k l st).
Proof.
  unfold found, V1.doubles_step. intros Hst.
  destruct (lt_min _ (fst st)); simpl; auto; discriminate.
Qed.

Lemma doubles_search_inv (h : heap) (s : list addr) :
  quad_inv s (V1.doubles_search h s).
Proof.
  unfold V1.doubles_search.
  apply fold_left_preserves; [|intros q Hq; discriminate].
  intros st i Hi Hst. apply in_range in Hi.
  apply fold_left_preserves; auto.
  clear st Hst. intros st j Hj Hst. apply in_range in Hj.
  apply fold_left_preserves; auto.
  clear st Hst. intros st k Hk Hst. apply in_range in Hk.
  apply fold_left_preserves; auto.
  clear st Hst. intros st l Hl Hst. apply in_range in Hl.
  apply doubles_step_inv; auto; lia.
Qed.

Lemma doubles_search_found (h : heap) (s : list addr) :
  (4 <= length s)%nat -> found (V1.doubles_search h s).
Proof.
  intros Hlen. unfold V1.doubles_search.
  set (n := length s).
  set (body := fun i j k st l => V1.doubles_step h s i j k l st).
  set (loop_l := fun i j st k => fold_left (body i j k) (range (k + 1) n) st).
  set (loop_k := fun i st j => fold_left (loop_l i j) (range (j + 1) n) st).
  set (loop_j := fun st i => fold_left (loop_k i) (range (i + 1) n) st).
  assert (Hbody : forall i j k st l, found st -> found (body i j k st l))
    by (intros; now apply doubles_step_found).
  assert (Hl : forall i j st k, found st -> found (loop_l i j st k))
    by (intros; apply fold_left_preserves; auto).
  assert (Hk : forall i st j, found st -> found (loop_k i st j))
    by (intros; apply fold_left_preserves; auto).
  assert (Hj : forall st i, found st -> found (loop_j st i))
    by (intros; apply fold_left_preserves; auto).
  change (found (fold_left loop_j (range 0 n) (None, None))).
  rewrite (range_cons 0 n) by (unfold n; lia). simpl fold_left.
  apply fold_left_preserves; auto.
  unfold loop_j at 1. simpl Nat.add.
  rewrite (range_cons 1 n) by (unfold n; lia). simpl fold_left.
  apply fold_left_preserves; auto.
  unfold loop_k at 1. simpl Nat.add.
  rewrite (range_cons 2 n) by (unfold n; lia). simpl fold_left.
  apply fold_left_preserves; auto.
  unfold loop_l at 1. simpl Nat.add.
  rewrite (range_cons 3 n) by (unfold n; lia). simpl fold_left.
  apply fold_left_preserves; auto.
  unfold body, V1.doubles_step, found. simpl. discriminate.
Qed.

Lemma doubles_search_short (h : heap) (s : list addr) :
  (length s < 4)%nat -> snd (V1.doubles_search h s) = None.
Proof.
  intros Hlen. unfold V1.doubles_search.
  apply (fold_left_preserves (fun st => snd st = None)); [|reflexivity].
  intros st i Hi Hst. apply in_range in Hi.
  apply (fold_left_preserves (fun st => snd st = None)); auto.
  clear st Hst. intros st j Hj Hst. apply in_range in Hj.
  apply (fold_left_preserves (fun st => snd st = None)); auto.
  clear st Hst. intros st k Hk Hst. apply in_range in Hk.
  apply (fold_left_preserves (fun st => snd st = None)); auto.
  clear st Hst. intros st l Hl Hst. apply in_range in Hl. lia.
Qed.

(** ** Clearing the availability flag *)

Lemma mark_unavailable_length (ps : list addr) (h : heap) :
  length (mark_unavailable h ps) = length h.
Proof.
  unfold mark_unavailable. revert h.
  induction ps as [|p t IH]; intros h; simpl; auto.
  rewrite IH. apply store_length.
Qed.

Lemma mark_unavailable_other (ps : list addr) (h : heap) (a : addr) :
  ~ In a ps -> deref (mark_unavailable h ps) a = deref h a.
Proof.
  unfold mark_unavailable. revert h.
  induction ps as [|p t IH]; intros h Hn; simpl in *; auto.
  rewrite IH by tauto. apply deref_store_other. tauto.
Qed.

Lemma mark_unavailable_elo (ps : list addr) (h : heap) (a : addr) :
  elo_at (mark_unavailable h ps) a = elo_at h a.
Proof.
  unfold mark_unavailable. revert h.
  induction ps as [|p t IH]; intros h; simpl; auto.
  rewrite IH. destruct (Nat.eq_dec p a) as [->|Hne].
  - destruct (Nat.lt_ge_cases a (length h)) as [Hlt|Hge].
    + unfold elo_at. now rewrite deref_store_same.
    + unfold elo_at, deref.
      rewrite !nth_overflow; auto. now rewrite store_length.
  - now apply elo_at_store_other.
Qed.

Lemma mark_unavailable_name (ps : list addr) (h : heap) (a : addr) :
  Player.name (deref (mark_unavailable h ps) a) = Player.name (deref h a).
Proof.
  unfold mark_unavailable. revert h.
  induction ps as [|p t IH]; intros h; simpl; auto.
  rewrite IH. destruct (Nat.eq_dec p a) as [->|Hne].
  - destruct (Nat.lt_ge_cases a (length h)) as [Hlt|Hge].
    + now rewrite deref_store_same.
    + unfold deref. rewrite !nth_overflow; auto. now rewrite store_length.
  - now rewrite deref_store_other.
Qed.


(** ** Comparisons on concrete ratings *)

Lemma Rltb_lt (x y : R) : x < y -> Rltb x y = true.
Proof. unfold Rltb; destruct (Rlt_dec x y); tauto. Qed.

Lemma Rltb_ge (x y : R) : y <= x -> Rltb x y = false.
Proof. unfold Rltb; destruct (Rlt_dec x y); [lra | reflexivity]. Qed.

Lemma Rgtb_gt (x y : R) : x > y -> Rgtb x y = true.
Proof. unfold Rgtb; destruct (Rgt_dec x y); tauto. Qed.

Lemma Rgtb_le (x y : R) : x <= y -> Rgtb x y = false.
Proof. unfold Rgtb; destruct (Rgt_dec x y); [lra | reflexivity]. Qed.

(** Runs the model on a state whose ratings are numerals: the structure is
    computed, and each comparison of reals is settled by [lra]. *)
Ltac eval_reals :=
  repeat first
    [ progress cbn -[Rltb Rgtb Rabs IZR Rplus Rminus Rmult Rdiv Rinv Ropp Rpower]
    | progress unfold V1.singles_step, V1.doubles_step, lt_min, elo_at, sum_elo, deref
    | match goal with
      | |- context [Rabs ?x] =>
          first [rewrite (Rabs_right x) by lra | rewrite (Rabs_left1 x) by lra]
      | |- context [Rltb ?a ?b] =>
          first [rewrite (Rltb_lt a b) by lra | rewrite (Rltb_ge a b) by lra]
      | |- context [Rgtb ?a ?b] =>
          first [rewrite (Rgtb_gt a b) by lra | rewrite (Rgtb_le a b) by lra]
      end ].

(** ** v1.py: [create_match('doubles')] *)

Lemma set_minus_quad (p1 p2 p3 p4 : addr) :
  NoDup [p1; p2; p3; p4] ->
  set_minus [p1; p2; p3; p4] [p1; p3] = [p2; p4].
Proof.
  intros Hnd.
  inversion Hnd as [|? ? N1 Hnd1]; subst. inversion Hnd1 as [|? ? N2 Hnd2]; subst.
  inversion Hnd2 as [|? ? N3 _]; subst. simpl in N1, N2, N3.
  assert (E : forall a b : addr, a <> b -> addr_eqb a b = false)
    by (intros; now apply Nat.eqb_neq).
  unfold set_minus, dedup, mem, existsb.
  rewrite !(E p1 p2), !(E p1 p3), !(E p1 p4), !(E p2 p3), !(E p2 p4), !(E p3 p4)
    by intuition congruence.
  cbn [orb filter existsb negb].
  unfold addr_eqb. rewrite !Nat.eqb_refl.
  rewrite !(proj2 (Nat.eqb_neq _ _)) by intuition congruence.
  reflexivity.
Qed.

Lemma V1_create_doubles_spec (w : V1.world) :
  let h := V1.objects w in
  let pool := V1.Queue.players (V1.queue w) in
  let ledger := V1.Queue.matches (V1.queue w) in
  let s := sorted pool (elo_at h) false in
  NoDup pool -> (4 <= length pool)%nat ->
  exists p1 p2 p3 p4 dq,
    chosen_quad s (p1, p2, p3, p4) /\
    (elo_at h p1 <= elo_at h p2 /\ elo_at h p2 <= elo_at h p3 /\
     elo_at h p3 <= elo_at h p4) /\
    NoDup [p1; p2; p3; p4] /\
    Permutation ([p1; p2; p3; p4] ++ dq) pool /\
    let m := V1.Match.mk (length ledger) (Teams [p1; p3] [p2; p4]) doubles None in
    V1.create_match doubles w =
    (Return (Some m),
     V1.mkWorld (mark_unavailable h [p1; p2; p3; p4])
                (V1.Queue.mk dq (ledger ++ [m]))).
Proof.
  intros h pool ledger s Hnd Hlen.
  assert (Hls : length s = length pool) by apply sorted_length.
  assert (Hps : Permutation s pool) by apply sorted_perm.
  assert (Hnds : NoDup s) by (apply (Permutation_NoDup (Permutation_sym Hps)); assumption).
  pose proof (doubles_search_inv h s) as Hinv.
  pose proof (doubles_search_found h s ltac:(lia)) as Hfound.
  unfold found in Hfound.
  destruct (snd (V1.doubles_search h s)) as [[[[p1 p2] p3] p4]|] eqn:Hsearch;
    [|congruence].
  specialize (Hinv _ Hsearch).
  pose proof Hinv as [i [j [k [l [Hij [Hjk [Hkl [Hl Hq]]]]]]]].
  injection Hq as -> -> -> ->.
  pose proof (sorted_ascending pool (elo_at h)) as Hsorted. fold s in Hsorted.
  assert (Hle : forall x y, (x < y)%nat -> (y < length s)%nat ->
                elo_at h (nth x s O) <= elo_at h (nth y s O))
    by (intros; now apply (StronglySorted_nth _ s O Hsorted)).
  assert (Hquad : NoDup [nth i s O; nth j s O; nth k s O; nth l s O]).
  { repeat constructor; simpl; intros H;
      repeat (destruct H as [H|H];
              [revert H; apply NoDup_nth_neq; auto; lia|]); auto. }
  destruct (remove_all_spec [nth i s O; nth j s O; nth k s O; nth l s O] pool)
    as [dq [Hrem Hperm]]; auto.
  { intros x [<-|[<-|[<-|[<-|[]]]]]; apply (Permutation_in _ Hps), nth_In; lia. }
  exists (nth i s O), (nth j s O), (nth k s O), (nth l s O), dq.
  repeat split; auto; try (apply Hle; lia).
  unfold V1.create_match. fold h pool ledger.
  replace (length pool <? 2)%nat with false by (symmetry; apply Nat.ltb_ge; lia).
  fold s. rewrite Hsearch, Hrem. rewrite !mark_unavailable_elo.
  rewrite Rgtb_le.
  - now rewrite set_minus_quad.
  - pose proof (Hle i k ltac:(lia) ltac:(lia)).
    pose proof (Hle j l ltac:(lia) ltac:(lia)). lra.
Qed.

(** ** v4.py: the registry dict *)

Lemma dict_get_in (k : string) (d : V4.dict) (a : addr) :
  V4.dict_get k d = Some a -> In (k, a) d.
Proof.
  induction d as [|[k' v] t IH]; simpl; [discriminate|].
  destruct (String.eqb k' k) eqn:E.
  - apply String.eqb_eq in E. intros [= ->]. left. now subst.
  - auto.
Qed.

Lemma dict_get_none (k : string) (d : V4.dict) :
  V4.dict_get k d = None <-> ~ In k (V4.keys d).
Proof.
  induction d as [|[k' v] t IH]; simpl; [tauto|].
  destruct (String.eqb k' k) eqn:E.
  - apply String.eqb_eq in E. split; [discriminate | tauto].
  - apply String.eqb_neq in E. rewrite IH. tauto.
Qed.

Lemma dict_get_some (k : string) (d : V4.dict) (a : addr) :
  NoDup (V4.keys d) -> In (k, a) d -> V4.dict_get k d = Some a.
Proof.
  induction d as [|[k' v] t IH]; simpl; [tauto|].
  intros Hnd Hin. inversion Hnd as [|? ? Hn Hnd']; subst.
  destruct Hin as [[= -> ->]|Hin].
  - now rewrite String.eqb_refl.
  - destruct (String.eqb k' k) eqn:E; auto.
    apply String.eqb_eq in E; subst. exfalso. apply Hn.
    change k with (fst (k, a)). now apply in_map.
Qed.

Lemma keys_without (names : list string) (d : V4.dict) (k : string) :
  In k (V4.keys (without names d)) <-> In k (V4.keys d) /\ ~ In k names.
Proof.
  unfold V4.keys, without. rewrite !in_map_iff. split.
  - intros [[k' a] [<- Hin]]. apply filter_In in Hin as [Hin Hf]. simpl in *.
    split; [exists (k', a); auto|].
    intros Hk. apply negb_true_iff in Hf.
    assert (existsb (String.eqb k') names = true)
      by (apply existsb_exists; exists k'; split; auto; apply String.eqb_refl).
    congruence.
  - intros [[[k' a] [<- Hin]] Hn]. exists (k', a). split; auto.
    apply filter_In. split; auto. simpl in *.
    apply negb_true_iff. destruct (existsb (String.eqb k') names) eqn:E; auto.
    apply existsb_exists in E as [x [Hx Hxe]]. apply String.eqb_eq in Hxe. now subst.
Qed.

Lemma NoDup_keys_without (names : list string) (d : V4.dict) :
  NoDup (V4.keys d) -> NoDup (V4.keys (without names d)).
Proof.
  unfold V4.keys, without. induction d as [|[k a] t IH]; simpl; auto.
  intros Hnd. inversion Hnd as [|? ? Hn Hnd']; subst.
  destruct (negb (existsb (String.eqb k) names)); simpl; auto.
  constructor; auto.
  intros Hin. apply Hn. apply in_map_iff in Hin as [e [He Hin]].
  apply filter_In in Hin as [Hin _]. apply in_map_iff. eauto.
Qed.

Lemma in_without (names : list string) (d : V4.dict) (e : string * addr) :
  In e (without names d) -> In e d.
Proof. unfold without. intros H. now apply filter_In in H. Qed.

Lemma dict_del_spec (k : string) (d : V4.dict) :
  NoDup (V4.keys d) -> In k (V4.keys d) ->
  V4.dict_del k d = Some (without [k] d).
Proof.
  induction d as [|[k' v] t IH]; simpl; [tauto|].
  intros Hnd Hin. inversion Hnd as [|? ? Hn Hnd']; subst.
  destruct (String.eqb k' k) eqn:E; simpl.
  - apply String.eqb_eq in E; subst. f_equal.
    unfold without. symmetry. apply forallb_filter_id.
    apply forallb_forall. intros [k1 a1] Hin1. simpl.
    destruct (String.eqb k1 k) eqn:E1; auto.
    apply String.eqb_eq in E1; subst. exfalso. apply Hn.
    change k with (fst (k, a1)). now apply in_map.
  - destruct Hin as [->|Hin]; [rewrite String.eqb_refl in E; discriminate|].
    now rewrite IH.
Qed.

Lemma dict_del_missing (k : string) (d : V4.dict) :
  ~ In k (V4.keys d) -> V4.dict_del k d = None.
Proof.
  induction d as [|[k' v] t IH]; simpl; auto.
  intros Hn. destruct (String.eqb k' k) eqn:E.
  - apply String.eqb_eq in E. tauto.
  - rewrite IH; tauto.
Qed.

Lemma without_without (n1 n2 : list string) (d : V4.dict) :
  without n2 (without n1 d) = without (n1 ++ n2) d.
Proof.
  unfold without. induction d as [|[k a] t IH]; simpl; auto.
  rewrite existsb_app.
  destruct (existsb (String.eqb k) n1); simpl; auto.
  destruct (existsb (String.eqb k) n2); simpl; congruence.
Qed.

Lemma without_nil (d : V4.dict) : without [] d = d.
Proof.
  unfold without. apply forallb_filter_id. apply forallb_forall. auto.
Qed.

Lemma remove_players_spec (h : heap) (ms : list V4.Match.t) (ps : list addr) :
  forall d,
  NoDup (V4.keys d) ->
  NoDup (map (name_at h) ps) ->
  (forall a, In a ps -> In (name_at h a) (V4.keys d)) ->
  V4.remove_players (V4.mkWorld h (V4.Queue.mk d ms)) ps =
  (Return tt, V4.mkWorld h (V4.Queue.mk (without (map (name_at h) ps) d) ms)).
Proof.
  induction ps as [|p rest IH]; intros d Hnd Hnames Hin; simpl.
  - now rewrite without_nil.
  - inversion Hnames as [|? ? Hn Hnames']; subst.
    unfold V4.remove_player. simpl. fold (name_at h p).
    rewrite dict_del_spec; auto; [|apply Hin; now left].
    rewrite IH; auto.
    + now rewrite without_without.
    + now apply NoDup_keys_without.
    + intros a Ha. apply keys_without. split; [apply Hin; now right|].
      intros [Heq|[]]. apply Hn. rewrite Heq. now apply in_map.
Qed.

Lemma wf_names (w : V4.world) :
  V4_wf w ->
  map (name_at (V4.objects w)) (V4.values (V4.Queue.players (V4.queue w))) =
  V4.keys (V4.Queue.players (V4.queue w)).
Proof.
  intros [_ Hwf]. unfold V4.values, V4.keys. rewrite map_map.
  apply map_ext_in. intros [k a] Hin. simpl. now apply Hwf.
Qed.

Lemma NoDup_map_incl {A B : Type} (f : A -> B) (l ps : list A) :
  NoDup (map f l) -> NoDup ps -> incl ps l -> NoDup (map f ps).
Proof.
  intros Hl Hps Hincl.
  assert (Hinj : forall x y, In x l -> In y l -> f x = f y -> x = y).
  { clear ps Hps Hincl. induction l as [|z t IH]; simpl in *; [tauto|].
    inversion Hl as [|? ? Hn Hl']; subst.
    intros x y [->|Hx] [->|Hy] Hxy; auto.
    - exfalso. apply Hn. rewrite Hxy. now apply in_map.
    - exfalso. apply Hn. rewrite <- Hxy. now apply in_map. }
  induction Hps as [|p rest Hn Hps IH]; simpl; constructor.
  - intros Hin. apply in_map_iff in Hin as [y [Hy Hyin]].
    apply Hn. rewrite <- (Hinj y p); auto.
    + apply Hincl. now right.
    + apply Hincl. now left.
  - apply IH. intros x Hx. apply Hincl. now right.
Qed.

(** Removing members of the registry removes exactly their names. *)
Lemma V4_remove_selected (w : V4.world) (ps : list addr) :
  V4_wf w -> NoDup ps -> incl ps (V4.values (V4.Queue.players (V4.queue w))) ->
  V4.remove_players w ps =
  (Return tt,
   V4.mkWorld (V4.objects w)
     (V4.Queue.mk (without (map (name_at (V4.objects w)) ps) (V4.Queue.players (V4.queue w)))
                  (V4.Queue.matches (V4.queue w)))).
Proof.
  intros Hwf Hnd Hincl. pose proof (wf_names w Hwf) as Hnames.
  destruct w as [h [d ms]]. simpl in *.
  apply remove_players_spec.
  - apply Hwf.
  - apply NoDup_map_incl with (l := V4.values d); auto.
    rewrite Hnames. apply Hwf.
  - intros a Ha. rewrite <- Hnames. apply in_map. now apply Hincl.
Qed.

Lemma wf_values_NoDup (w : V4.world) :
  V4_wf w -> NoDup (V4.values (V4.Queue.players (V4.queue w))).
Proof.
  intros Hwf. apply (NoDup_map_inv (name_at (V4.objects w))).
  rewrite wf_names by assumption. apply Hwf.
Qed.

(** ** v4.py: [create_match] *)

Lemma V4_create_singles_spec (now : nat) (w : V4.world) :
  let h := V4.objects w in
  let d := V4.Queue.players (V4.queue w) in
  let ledger := V4.Queue.matches (V4.queue w) in
  let s := sorted (V4.values d) (elo_at h) true in
  let p1 := nth 0 s O in
  let p2 := nth 1 s O in
  let m := V4.Match.mk (length ledger) (Flat p1 p2) singles None now None in
  V4_wf w -> (2 <= length d)%nat ->
  V4.create_match now singles w =
  (Return (Some m),
   V4.mkWorld h (V4.Queue.mk (without [name_at h p1; name_at h p2] d) (ledger ++ [m]))).
Proof.
  intros h d ledger s p1 p2 m Hwf Hlen.
  assert (Hps : Permutation s (V4.values d)) by apply sorted_perm.
  assert (Hls : length s = length d)
    by (rewrite (Permutation_length Hps); apply length_map).
  assert (Hnds : NoDup s)
    by (apply (Permutation_NoDup (Permutation_sym Hps)); now apply wf_values_NoDup).
  unfold V4.create_match. fold h d ledger.
  replace (length d <? 2)%nat with false by (symmetry; apply Nat.ltb_ge; lia).
  fold s p1 p2.
  rewrite V4_remove_selected; auto.
  - repeat constructor; simpl; [|tauto].
    intros [H|[]]. revert H. apply not_eq_sym, NoDup_nth_neq; auto; lia.
  - intros x [<-|[<-|[]]]; apply (Permutation_in _ Hps), nth_In; lia.
Qed.

Lemma V4_create_doubles_spec (now : nat) (w : V4.world) :
  let h := V4.objects w in
  let d := V4.Queue.players (V4.queue w) in
  let ledger := V4.Queue.matches (V4.queue w) in
  let s := sorted (V4.values d) (elo_at h) true in
  let p1 := nth 0 s O in
  let p2 := nth 1 s O in
  let p3 := nth 2 s O in
  let p4 := nth 3 s O in
  let m := V4.Match.mk (length ledger) (Teams [p1; p2] [p3; p4]) doubles None now None in
  V4_wf w -> (4 <= length d)%nat ->
  V4.create_match now doubles w =
  (Return (Some m),
   V4.mkWorld h
     (V4.Queue.mk (without [name_at h p1; name_at h p2; name_at h p3; name_at h p4] d)
                  (ledger ++ [m]))).
Proof.
  intros h d ledger s p1 p2 p3 p4 m Hwf Hlen.
  assert (Hps : Permutation s (V4.values d)) by apply sorted_perm.
  assert (Hls : length s = length d)
    by (rewrite (Permutation_length Hps); apply length_map).
  assert (Hnds : NoDup s)
    by (apply (Permutation_NoDup (Permutation_sym Hps)); now apply wf_values_NoDup).
  unfold V4.create_match. fold h d ledger.
  replace (length d <? 2)%nat with false by (symmetry; apply Nat.ltb_ge; lia).
  replace (length d <? 4)%nat with false by (symmetry; apply Nat.ltb_ge; lia).
  fold s p1 p2 p3 p4.
  rewrite V4_remove_selected; auto.
  - repeat constructor; simpl; intros H;
      repeat (destruct H as [H|H];
              [revert H; apply not_eq_sym, NoDup_nth_neq; auto; lia|]); auto.
  - intros x [<-|[<-|[<-|[<-|[]]]]]; apply (Permutation_in _ Hps), nth_In; lia.
Qed.

(** [create_match] fails without touching the state when players are
    missing. *)
Lemma V4_create_match_short (now : nat) (mt : match_type) (w : V4.world) :
  (length (V4.Queue.players (V4.queue w)) < needed mt)%nat ->
  V4.create_match now mt w = (Return None, w).
Proof.
  intros Hlen. unfold V4.create_match.
  destruct (length (V4.Queue.players (V4.queue w)) <? 2)%nat eqn:E2; auto.
  apply Nat.ltb_ge in E2. destruct mt; simpl in Hlen; [lia|].
  replace (length (V4.Queue.players (V4.queue w)) <? 4)%nat with true
    by (symmetry; apply Nat.ltb_lt; lia).
  reflexivity.
Qed.

(** ** Too few players for doubles *)

Lemma V1_create_doubles_short (w : V1.world) :
  (length (V1.Queue.players (V1.queue w)) < 4)%nat ->
  V1.create_match doubles w =
  (if (length (V1.Queue.players (V1.queue w)) <? 2)%nat
   then Return None else Raise AttributeError, w).
Proof.
  intros Hlen. unfold V1.create_match.
  destruct (length (V1.Queue.players (V1.queue w)) <? 2)%nat; auto.
  rewrite doubles_search_short; auto.
  now rewrite sorted_length.
Qed.


(** ** Singles pairing *)

Lemma v1_singles_example :
  V1.create_match singles v1_pool_1000_1005_1200 =
  (Return (Some (V1.Match.mk 0 (Flat 0%nat 1%nat) singles None)),
   V1.mkWorld (mark_unavailable players_1000_1005_1200 [0; 1]%nat)
     (V1.Queue.mk [2%nat] [V1.Match.mk 0 (Flat 0%nat 1%nat) singles None])).
Proof.
  unfold V1.create_match, sorted, V1.singles_search. eval_reals. reflexivity.
Qed.

Lemma v4_singles_example :
  V4.create_match 0 singles v4_pool_1000_1005_1200 =
  (Return (Some (V4.Match.mk 0 (Flat 2%nat 1%nat) singles None 0 None)),
   V4.mkWorld players_1000_1005_1200
     (V4.Queue.mk [("a", 0%nat)]
        [V4.Match.mk 0 (Flat 2%nat 1%nat) singles None 0 None])).
Proof.
  unfold V4.create_match, sorted. eval_reals. reflexivity.
Qed.

(** C1 fails on v4.py (and v3.py): on the pool rated [1000, 1005, 1200]
    [create_match('singles')] selects the players rated 1200 and 1005, in
    this order, and leaves the player rated 1000. *)
Lemma v4_singles_takes_the_two_highest :
  exists m w',
    V4.create_match 0 singles v4_pool_1000_1005_1200 = (Return (Some m), w') /\
    V4.Match.players m = Flat 2%nat 1%nat /\
    elo_at players_1000_1005_1200 2%nat = 1200 /\
    elo_at players_1000_1005_1200 1%nat = 1005 /\
    V4.Queue.players (V4.queue w') = [("a", 0%nat)] /\
    V4.Match.players m <> Flat 0%nat 1%nat.
Proof.
  eexists. eexists. split; [apply v4_singles_example|].
  simpl. repeat split; try reflexivity. discriminate.
Qed.

(** C1, as the code has it.  In v1.py, for a pool of at least 2 distinct
    players, [create_match('singles')] sorts the pool ascending by rating,
    selects the first adjacent pair of least rating gap, returns it in
    ascending order and takes the two out of the pool; on the pool rated
    [1000, 1005, 1200] these are the players rated 1000 and 1005, and the
    one rated 1200 stays.  In v4.py (and v3.py) it sorts the registry
    descending by rating and selects the first two, the highest rated. *)
Theorem singles_pairing (w1 : V1.world) (now : nat) (w4 : V4.world) :
  NoDup (V1.Queue.players (V1.queue w1)) ->
  (2 <= length (V1.Queue.players (V1.queue w1)))%nat ->
  V4_wf w4 ->
  (2 <= length (V4.Queue.players (V4.queue w4)))%nat ->
  (let h := V1.objects w1 in
   let pool := V1.Queue.players (V1.queue w1) in
   let ledger := V1.Queue.matches (V1.queue w1) in
   let s := sorted pool (elo_at h) false in
   Permutation s pool /\
   StronglySorted (fun a b => elo_at h a <= elo_at h b) s /\
   exists i dq,
     let p1 := nth i s O in
     let p2 := nth (i + 1) s O in
     let m := V1.Match.mk (length ledger) (Flat p1 p2) singles None in
     first_least_gap h s (length s - 1) i /\
     elo_at h p1 <= elo_at h p2 /\
     Permutation (p1 :: p2 :: dq) pool /\
     V1.create_match singles w1 =
     (Return (Some m),
      V1.mkWorld (mark_unavailable h [p1; p2]) (V1.Queue.mk dq (ledger ++ [m]))))
  /\
  V1.create_match singles v1_pool_1000_1005_1200 =
  (Return (Some (V1.Match.mk 0 (Flat 0%nat 1%nat) singles None)),
   V1.mkWorld (mark_unavailable players_1000_1005_1200 [0; 1]%nat)
     (V1.Queue.mk [2%nat] [V1.Match.mk 0 (Flat 0%nat 1%nat) singles None]))
  /\
  (let h := V4.objects w4 in
   let d := V4.Queue.players (V4.queue w4) in
   let ledger := V4.Queue.matches (V4.queue w4) in
   let s := sorted (V4.values d) (elo_at h) true in
   let p1 := nth 0 s O in
   let p2 := nth 1 s O in
   let m := V4.Match.mk (length ledger) (Flat p1 p2) singles None now None in
   Permutation s (V4.values d) /\
   StronglySorted (fun a b => elo_at h a >= elo_at h b) s /\
   V4.create_match now singles w4 =
   (Return (Some m),
    V4.mkWorld h (V4.Queue.mk (without [name_at h p1; name_at h p2] d) (ledger ++ [m])))).
Proof.
  intros Hnd Hlen Hwf Hlen4. split; [|split].
  - cbv zeta. split; [apply sorted_perm|]. split; [apply sorted_ascending|].
    destruct (V1_create_singles_spec w1 Hnd Hlen)
      as [i [dq [Hfirst [Hle [_ [Hperm Hrun]]]]]].
    exists i, dq. auto.
  - apply v1_singles_example.
  - cbv zeta. split; [apply sorted_perm|]. split; [apply sorted_descending|].
    now apply V4_create_singles_spec.
Qed.

Lemma v4_pool_wf : V4_wf v4_pool_1000_1005_1200.
Proof.
  split; simpl.
  - repeat constructor; simpl; intuition discriminate.
  - intros k a [[= <- <-]|[[= <- <-]|[[= <- <-]|[]]]]; simpl; split; auto; lia.
Qed.

Lemma singles_pairing_witness :
  (exists i dq,
     first_least_gap players_1000_1005_1200
       (sorted [0; 1; 2]%nat (elo_at players_1000_1005_1200) false)
       (length (sorted [0; 1; 2]%nat (elo_at players_1000_1005_1200) false) - 1) i /\
     Permutation
       (nth i (sorted [0; 1; 2]%nat (elo_at players_1000_1005_1200) false) O
        :: nth (i + 1) (sorted [0; 1; 2]%nat (elo_at players_1000_1005_1200) false) O
        :: dq) [0; 1; 2]%nat) /\
  Permutation
    (sorted [0; 1; 2]%nat (elo_at players_1000_1005_1200) true) [0; 1; 2]%nat.
Proof.
  assert (Hnd : NoDup [0; 1; 2]%nat)
    by (repeat constructor; simpl; intuition discriminate).
  destruct (singles_pairing v1_pool_1000_1005_1200 0 v4_pool_1000_1005_1200
              Hnd ltac:(simpl; lia) v4_pool_wf ltac:(simpl; lia))
    as [[_ [_ [i [dq [Hfirst [_ [Hperm _]]]]]]] [_ [Hperm4 _]]].
  split; [exists i, dq; split; [exact Hfirst | exact Hperm] | exact Hperm4].
Defined.

(** ** Doubles pairing: the team assignment *)

Lemma v1_doubles_example :
  V1.create_match doubles v1_pool_four_1000 =
  (Return (Some (V1.Match.mk 0 (Teams [0; 2]%nat [1; 3]%nat) doubles None)),
   V1.mkWorld (mark_unavailable players_four_1000 [0; 1; 2; 3]%nat)
     (V1.Queue.mk [] [V1.Match.mk 0 (Teams [0; 2]%nat [1; 3]%nat) doubles None])).
Proof.
  unfold V1.create_match, sorted, V1.doubles_search, range. eval_reals. reflexivity.
Qed.

(** C4 fails on v1.py: for four players rated 1000 the chosen positions are
    0 < 1 < 2 < 3 of the sorted pool and the two sums of the fixed split
    are equal, yet team1 is the pair at positions 0 and 2, not the
    first-split pair at positions 0 and 1. *)
Lemma v1_doubles_team1_is_not_the_first_split :
  let s := sorted [0; 1; 2; 3]%nat (elo_at players_four_1000) false in
  exists team1 team2 w',
    V1.create_match doubles v1_pool_four_1000 =
    (Return (Some (V1.Match.mk 0 (Teams team1 team2) doubles None)), w') /\
    s = [0; 1; 2; 3]%nat /\
    sum_elo players_four_1000 [nth 0 s O; nth 1 s O] =
    sum_elo players_four_1000 [nth 2 s O; nth 3 s O] /\
    team1 = [nth 0 s O; nth 2 s O] /\
    ~ Permutation team1 [nth 0 s O; nth 1 s O].
Proof.
  assert (Hs : sorted [0; 1; 2; 3]%nat (elo_at players_four_1000) false = [0; 1; 2; 3]%nat)
    by (unfold sorted; eval_reals; reflexivity).
  cbv zeta. rewrite Hs.
  exists [0; 2]%nat, [1; 3]%nat. eexists.
  split; [apply v1_doubles_example|].
  split; [reflexivity|]. split; [reflexivity|]. split; [reflexivity|].
  simpl. intros Hp.
  assert (Hin : In 2%nat [0; 1]%nat)
    by (apply (Permutation_in _ Hp); simpl; auto).
  simpl in Hin. intuition discriminate.
Qed.

(** C4, as the code has it.  In v1.py, for a pool of at least 4 distinct
    players, the four chosen players [p1, p2, p3, p4] stand at increasing
    positions [i < j < k < l] of the sorted pool, so the sum of the first
    pair [p1, p2] of the fixed split is never strictly greater than the sum
    of [p3, p4]; team1 is then [p1, p3] (positions i and k), also when the
    two sums are equal, and team2 is the complementary pair of [p2] and
    [p4]. *)
Theorem doubles_team_assignment (w : V1.world) :
  let h := V1.objects w in
  let pool := V1.Queue.players (V1.queue w) in
  let ledger := V1.Queue.matches (V1.queue w) in
  let s := sorted pool (elo_at h) false in
  NoDup pool -> (4 <= length pool)%nat ->
  exists p1 p2 p3 p4 team2 w',
    chosen_quad s (p1, p2, p3, p4) /\
    sum_elo h [p1; p2] <= sum_elo h [p3; p4] /\
    Permutation team2 [p2; p4] /\
    V1.create_match doubles w =
    (Return (Some (V1.Match.mk (length ledger) (Teams [p1; p3] team2) doubles None)), w').
Proof.
  intros h pool ledger s Hnd Hlen.
  destruct (V1_create_doubles_spec w Hnd Hlen)
    as [p1 [p2 [p3 [p4 [dq [Hq [[H12 [H23 H34]] [_ [_ Hrun]]]]]]]]].
  exists p1, p2, p3, p4, [p2; p4]. eexists.
  split; [exact Hq|]. split; [|split; [apply Permutation_refl | exact Hrun]].
  rewrite !sum_elo_pair. fold h in H12, H23, H34. lra.
Qed.

Lemma doubles_team_assignment_witness :
  exists p1 p2 p3 p4 team2 w',
    Permutation team2 [p2; p4] /\
    V1.create_match doubles v1_pool_four_1000 =
    (Return (Some (V1.Match.mk 0 (Teams [p1; p3] team2) doubles None)), w').
Proof.
  destruct (doubles_team_assignment v1_pool_four_1000) as
    [p1 [p2 [p3 [p4 [team2 [w' [_ [_ [Hp Hrun]]]]]]]]].
  - simpl. repeat constructor; simpl; intuition discriminate.
  - simpl. lia.
  - exists p1, p2, p3, p4, team2, w'. split; [exact Hp | exact Hrun].
Defined.

(** ** The availability flag *)



Lemma call_available_kept (h : heap) (self a : addr) (opp : Player.t) (o : Z) :
  (a < length h)%nat ->
  (self = a \/ Player.availability (deref h a) = true) ->
  Player.availability (deref (call_calculate_elo h self opp o) a) = true.
Proof.
  intros Hlt [->|Hav].
  - now apply availability_call_same.
  - destruct (Nat.eq_dec self a) as [->|Hne].
    + now apply availability_call_same.
    + unfold call_calculate_elo. now rewrite deref_store_other.
Qed.

Lemma calls_available (team : list addr) (opp : Player.t) (o : Z) (a : addr) :
  forall h,
  (a < length h)%nat ->
  (In a team \/ Player.availability (deref h a) = true) ->
  let h' := fold_left (fun h' player => call_calculate_elo h' player opp o) team h in
  length h' = length h /\ Player.availability (deref h' a) = true.
Proof.
  induction team as [|p rest IH]; intros h Hlt Hor; simpl.
  - destruct Hor as [[]|Hav]. auto.
  - destruct (IH (call_calculate_elo h p opp o)) as [Hlen Hav].
    + now rewrite call_length.
    + destruct Hor as [[->|Hin]|Hav]; auto; right; apply call_available_kept; auto.
    + split; auto. now rewrite Hlen, call_length.
Qed.

Lemma calls_length (team : list addr) (opp : Player.t) (o : Z) :
  forall h,
  length (fold_left (fun h' player => call_calculate_elo h' player opp o) team h) =
  length h.
Proof.
  induction team as [|p rest IH]; intros h; simpl; auto.
  now rewrite IH, call_length.
Qed.

(** After the ratings of a match are updated every player of the match is
    available. *)
Lemma update_ratings_available (h : heap) (ps : participants) (o : Z) (a : addr) :
  In a (members ps) -> (a < length h)%nat ->
  Player.availability (deref (update_ratings h ps o) a) = true.
Proof.
  intros Hin Hlt. destruct ps as [p0 p1|team1 team2]; simpl in *.
  - apply call_available_kept; [now rewrite call_length|].
    destruct Hin as [<-|[<-|[]]]; auto.
    right. apply call_available_kept; auto.
  - apply in_app_or in Hin.
    apply calls_available; [now rewrite calls_length|].
    destruct Hin as [Hin|Hin]; auto.
    right. apply calls_available; auto.
Qed.

Lemma V1_create_match_needs (mt : match_type) (w : V1.world) (m : V1.Match.t)
    (w' : V1.world) :
  V1.create_match mt w = (Return (Some m), w') ->
  (needed mt <= length (V1.Queue.players (V1.queue w)))%nat.
Proof.
  intros Hrun.
  destruct (Nat.lt_ge_cases (length (V1.Queue.players (V1.queue w))) (needed mt))
    as [Hlt|]; auto.
  exfalso. destruct mt; simpl in Hlt.
  - unfold V1.create_match in Hrun.
    replace (length (V1.Queue.players (V1.queue w)) <? 2)%nat with true in Hrun
      by (symmetry; apply Nat.ltb_lt; lia).
    discriminate.
  - rewrite V1_create_doubles_short in Hrun by assumption.
    destruct (length (V1.Queue.players (V1.queue w)) <? 2)%nat; discriminate.
Qed.





(** ** v4.py: recording an outcome *)

Lemma V4_record_spec (w : V4.world) (i : nat) (m : V4.Match.t) (o : Z) (score : string) :
  nth_error (V4.Queue.matches (V4.queue w)) i = Some m ->
  V4.record_match_outcome (Z.of_nat i) o score w =
  (true,
   V4.mkWorld (update_ratings (V4.objects w) (V4.Match.players m) o)
     (V4.Queue.mk (V4.Queue.players (V4.queue w))
        (V4.set_nth (V4.Queue.matches (V4.queue w)) i (V4.Match.record_score m score)))).
Proof.
  intros Hnth. unfold V4.record_match_outcome.
  assert (Hi : (i < length (V4.Queue.matches (V4.queue w)))%nat)
    by (apply nth_error_Some; congruence).
  replace (0 <=? Z.of_nat i)%Z with true by (symmetry; apply Z.leb_le; lia).
  replace (Z.of_nat i <? Z.of_nat (length (V4.Queue.matches (V4.queue w))))%Z with true
    by (symmetry; apply Z.ltb_lt; lia).
  simpl. rewrite Nat2Z.id, Hnth. reflexivity.
Qed.

Lemma call_name (h : heap) (self a : addr) (opp : Player.t) (o : Z) :
  name_at (call_calculate_elo h self opp o) a = name_at h a.
Proof.
  unfold name_at, call_calculate_elo.
  destruct (Nat.eq_dec self a) as [->|Hne].
  - destruct (Nat.lt_ge_cases a (length h)) as [Hlt|Hge].
    + now rewrite deref_store_same.
    + unfold deref. rewrite !nth_overflow; auto. now rewrite store_length.
  - now rewrite deref_store_other.
Qed.

Lemma calls_name (team : list addr) (opp : Player.t) (o : Z) (a : addr) :
  forall h,
  name_at (fold_left (fun h' player => call_calculate_elo h' player opp o) team h) a =
  name_at h a.
Proof.
  induction team as [|p rest IH]; intros h; simpl; auto.
  now rewrite IH, call_name.
Qed.

(** A rating update renames nobody. *)
Lemma update_ratings_name (h : heap) (ps : participants) (o : Z) (a : addr) :
  name_at (update_ratings h ps o) a = name_at h a.
Proof.
  destruct ps as [p0 p1|team1 team2]; simpl.
  - now rewrite !call_name.
  - now rewrite !calls_name.
Qed.

(** ** v4.py: the selected players leave the registry *)

Lemma V4_create_match_inv (now : nat) (mt : match_type) (w : V4.world)
    (m : V4.Match.t) (w' : V4.world) :
  V4_wf w ->
  V4.create_match now mt w = (Return (Some m), w') ->
  incl (members (V4.Match.players m)) (V4.values (V4.Queue.players (V4.queue w))) /\
  V4.Match.id m = length (V4.Queue.matches (V4.queue w)) /\
  w' = V4.mkWorld (V4.objects w)
         (V4.Queue.mk
            (without (map (name_at (V4.objects w)) (members (V4.Match.players m)))
                     (V4.Queue.players (V4.queue w)))
            (V4.Queue.matches (V4.queue w) ++ [m])).
Proof.
  intros Hwf Hrun.
  destruct (Nat.lt_ge_cases (length (V4.Queue.players (V4.queue w))) (needed mt))
    as [Hlt|Hge].
  { rewrite V4_create_match_short in Hrun by assumption. discriminate. }
  pose proof (sorted_perm (V4.values (V4.Queue.players (V4.queue w)))
                (elo_at (V4.objects w)) true) as Hps.
  pose proof (Permutation_length Hps) as Hls.
  unfold V4.values in Hls at 2. rewrite length_map in Hls.
  destruct mt; simpl in Hge.
  - rewrite V4_create_singles_spec in Hrun by assumption.
    injection Hrun as <- <-. simpl. repeat split; auto.
    intros x [<-|[<-|[]]]; apply (Permutation_in _ Hps), nth_In; lia.
  - rewrite V4_create_doubles_spec in Hrun by assumption.
    injection Hrun as <- <-. simpl. repeat split; auto.
    intros x [<-|[<-|[<-|[<-|[]]]]]; apply (Permutation_in _ Hps), nth_In; lia.
Qed.

Lemma dict_get_without (names : list string) (d : V4.dict) (k : string) :
  In k names -> V4.dict_get k (without names d) = None.
Proof.
  intros Hin. apply dict_get_none. rewrite keys_without. tauto.
Qed.

(** C10. In v4.py [create_match] deletes the selected players from the
    registry and changes no [Player] object; recording the outcome of the
    match leaves the registry as it is.  So for every player of the new
    match a lookup by name finds nobody, before and after the outcome is
    recorded, although after it the player's own flag is
    [availability == True]. *)
Theorem selected_players_leave_the_registry (now : nat) (mt : match_type)
    (w : V4.world) (m : V4.Match.t) (w' : V4.world) (o : Z) (score : string) :
  V4_wf w ->
  V4.create_match now mt w = (Return (Some m), w') ->
  let r := V4.record_match_outcome (Z.of_nat (V4.Match.id m)) o score w' in
  V4.objects w' = V4.objects w /\
  fst r = true /\
  V4.Queue.players (V4.queue (snd r)) = V4.Queue.players (V4.queue w') /\
  forall a, In a (members (V4.Match.players m)) ->
    V4.prompt_view_player (name_at (V4.objects w) a) w
      = Some (deref (V4.objects w) a) /\
    V4.prompt_view_player (name_at (V4.objects w) a) w' = None /\
    V4.prompt_view_player (name_at (V4.objects w) a) (snd r) = None /\
    name_at (V4.objects (snd r)) a = name_at (V4.objects w) a /\
    Player.availability (deref (V4.objects (snd r)) a) = true.
Proof.
  intros Hwf Hrun r.
  destruct (V4_create_match_inv now mt w m w' Hwf Hrun) as [Hincl [Hid Hw']].
  assert (Hnth : nth_error (V4.Queue.matches (V4.queue w')) (V4.Match.id m) = Some m).
  { rewrite Hw', Hid. simpl.
    rewrite nth_error_app2 by lia. now rewrite Nat.sub_diag. }
  assert (Hr : r = _) by (apply (V4_record_spec w' _ m o score Hnth)).
  rewrite Hr. simpl.
  split; [now rewrite Hw'|]. split; [reflexivity|]. split; [reflexivity|].
  intros a Ha.
  assert (Hval : In a (V4.values (V4.Queue.players (V4.queue w)))) by now apply Hincl.
  unfold V4.values in Hval. apply in_map_iff in Hval as [[k a'] [Heq Hin]].
  simpl in Heq; subst a'.
  destruct Hwf as [Hnd Hwf]. destruct (Hwf k a Hin) as [Hlt Hname].
  assert (Hgone : V4.dict_get (name_at (V4.objects w) a)
                    (V4.Queue.players (V4.queue w')) = None).
  { rewrite Hw'. simpl. apply dict_get_without. now apply in_map. }
  unfold V4.prompt_view_player. simpl. rewrite Hgone.
  repeat split.
  - unfold name_at. rewrite Hname. now rewrite (dict_get_some k _ a Hnd Hin).
  - rewrite Hw'. simpl. apply update_ratings_name.
  - rewrite Hw'. simpl. apply update_ratings_available; auto.
Qed.

(** ** v4.py: [add_player] *)

Lemma keys_dict_set_in (n : string) (v : addr) (d : V4.dict) :
  In n (V4.keys d) -> V4.keys (V4.dict_set n v d) = V4.keys d.
Proof.
  induction d as [|[k a] t IH]; simpl; [tauto|].
  intros Hin. destruct (String.eqb k n) eqn:E; simpl; auto.
  apply String.eqb_neq in E. destruct Hin as [|Hin]; [congruence|].
  now rewrite IH.
Qed.

Lemma keys_dict_set_new (n : string) (v : addr) (d : V4.dict) :
  ~ In n (V4.keys d) -> V4.keys (V4.dict_set n v d) = V4.keys d ++ [n].
Proof.
  induction d as [|[k a] t IH]; simpl; auto.
  intros Hn. destruct (String.eqb k n) eqn:E; simpl.
  - apply String.eqb_eq in E. tauto.
  - rewrite IH; tauto.
Qed.

Lemma dict_get_set_same (n : string) (v : addr) (d : V4.dict) :
  V4.dict_get n (V4.dict_set n v d) = Some v.
Proof.
  induction d as [|[k a] t IH]; simpl.
  - now rewrite String.eqb_refl.
  - destruct (String.eqb k n) eqn:E; simpl; now rewrite E.
Qed.

Lemma dict_get_set_other (n k : string) (v : addr) (d : V4.dict) :
  k <> n -> V4.dict_get k (V4.dict_set n v d) = V4.dict_get k d.
Proof.
  intros Hne. induction d as [|[k' a] t IH]; simpl.
  - apply not_eq_sym, String.eqb_neq in Hne. now rewrite Hne.
  - destruct (String.eqb k' n) eqn:E; simpl.
    + apply String.eqb_eq in E; subst.
      apply not_eq_sym, String.eqb_neq in Hne. now rewrite Hne.
    + now rewrite IH.
Qed.

Lemma dict_set_in (n k : string) (v a : addr) (d : V4.dict) :
  In (k, a) (V4.dict_set n v d) -> (k = n /\ a = v) \/ In (k, a) d.
Proof.
  induction d as [|[k' a'] t IH]; simpl.
  - intros [[= <- <-]|[]]. auto.
  - destruct (String.eqb k' n) eqn:E; simpl.
    + apply String.eqb_eq in E; subst.
      intros [[= <- <-]|Hin]; auto.
    + intros [Heq|Hin]; auto. destruct (IH Hin); auto.
Qed.

(** C8 fails on v4.py (and v3.py): typing the name "x" of a registered
    player rated 1500 at choice "1" raises nothing, and the registry then
    holds under "x" the new player, of id 1 and rating 1200. *)
Lemma v4_add_player_overwrites :
  V4.prompt_view_player "x" registry_with_x
    = Some (Player.init (IdStr "7") "x" (PyInt 1500)) /\
  V4.prompt_view_player "x" (V4.prompt_add_player "x" registry_with_x)
    = Some (Player.init (IdInt 1) "x" (PyInt 1200)) /\
  V4.triplets (V4.prompt_add_player "x" registry_with_x) <> V4.triplets registry_with_x.
Proof.
  repeat split; try reflexivity.
  simpl. intros H. discriminate H.
Qed.

(** C8, as the code has it.  In v4.py (and v3.py) adding a player whose name
    is already in the registry never fails: the entry of that name now holds
    the new player, the names and all other entries stay as they are, and
    no [Player] object is changed, the one that was registered included. *)
Theorem add_player_replaces_existing (w : V4.world) (player old : addr) :
  V4.dict_get (name_at (V4.objects w) player) (V4.Queue.players (V4.queue w))
    = Some old ->
  let w' := V4.add_player w player in
  V4.objects w' = V4.objects w /\
  V4.Queue.matches (V4.queue w') = V4.Queue.matches (V4.queue w) /\
  V4.keys (V4.Queue.players (V4.queue w')) = V4.keys (V4.Queue.players (V4.queue w)) /\
  V4.dict_get (name_at (V4.objects w) player) (V4.Queue.players (V4.queue w'))
    = Some player /\
  forall k, k <> name_at (V4.objects w) player ->
    V4.dict_get k (V4.Queue.players (V4.queue w'))
    = V4.dict_get k (V4.Queue.players (V4.queue w)).
Proof.
  intros Hold w'. unfold w', V4.add_player. simpl. fold (name_at (V4.objects w) player).
  repeat split.
  - apply keys_dict_set_in.
    apply dict_get_in in Hold.
    change (name_at (V4.objects w) player) with (fst (name_at (V4.objects w) player, old)).
    now apply in_map.
  - apply dict_get_set_same.
  - intros k Hk. now apply dict_get_set_other.
Qed.

Lemma add_player_replaces_existing_witness :
  V4.dict_get "x" (V4.Queue.players (V4.queue (V4.add_player two_players_named_x 1%nat)))
    = Some 1%nat /\
  V4.objects (V4.add_player two_players_named_x 1%nat) = V4.objects two_players_named_x.
Proof.
  destruct (add_player_replaces_existing two_players_named_x 1%nat 0%nat)
    as [Hobj [_ [_ [Hget _]]]].
  - reflexivity.
  - split; [exact Hget | exact Hobj].
Defined.

(** ** v4.py: saving and reloading the registry *)

Lemma deref_alloc (h : heap) (p : Player.t) : deref (h ++ [p]) (length h) = p.
Proof. unfold deref. rewrite app_nth2, Nat.sub_diag; auto. Qed.

Lemma deref_app_old (h : heap) (p : Player.t) (a : addr) :
  (a < length h)%nat -> deref (h ++ [p]) a = deref h a.
Proof. intros Hlt. unfold deref. now rewrite app_nth1. Qed.

(** Registering a new object keeps the registry well formed. *)
Lemma wf_add_new (w : V4.world) (p : Player.t) :
  V4_wf w ->
  V4_wf (V4.add_player (V4.mkWorld (V4.objects w ++ [p]) (V4.queue w))
                       (length (V4.objects w))).
Proof.
  intros [Hnd Hwf]. unfold V4.add_player. simpl. rewrite deref_alloc. split; simpl.
  - destruct (in_dec string_dec (Player.name p) (V4.keys (V4.Queue.players (V4.queue w))))
      as [Hin|Hnin].
    + now rewrite keys_dict_set_in.
    + rewrite keys_dict_set_new by assumption.
      apply NoDup_app; repeat split; auto.
      * repeat constructor. simpl. tauto.
      * intros x Hx [<-|[]]. contradiction.
  - intros k a Hin. rewrite length_app. simpl.
    apply dict_set_in in Hin as [[-> ->]|Hin].
    + rewrite deref_alloc. split; [lia | reflexivity].
    + destruct (Hwf k a Hin) as [Hlt Hname].
      rewrite deref_app_old by assumption. split; [lia | assumption].
Qed.

Lemma load_wf (rows : csv_file) :
  forall w, V4_wf w -> V4_wf (V4.load_players_from_csv rows w).
Proof.
  induction rows as [|row rest IH]; intros w Hwf; simpl; auto.
  destruct row as [|id [|name [|elo [|x row']]]]; auto.
  destruct (py_int elo); auto.
  apply IH. now apply wf_add_new.
Qed.





(** ** The statements on concrete pools *)



Lemma selected_players_leave_the_registry_witness :
  V4.prompt_view_player "c" v4_pool_1000_1005_1200
    = Some (Player.init (IdStr "3") "c" (PyInt 1200)) /\
  V4.prompt_view_player "c"
    (snd (V4.record_match_outcome 0 1 "21-19"
            (snd (V4.create_match 0 singles v4_pool_1000_1005_1200)))) = None.
Proof.
  destruct (selected_players_leave_the_registry 0 singles v4_pool_1000_1005_1200
              (V4.Match.mk 0 (Flat 2%nat 1%nat) singles None 0 None)
              (V4.mkWorld players_1000_1005_1200
                 (V4.Queue.mk [("a", 0%nat)]
                    [V4.Match.mk 0 (Flat 2%nat 1%nat) singles None 0 None]))
              1 "21-19" v4_pool_wf v4_singles_example) as [_ [_ [_ Hall]]].
  destruct (Hall 2%nat) as [Hbefore [_ [Hafter _]]]; [simpl; auto|].
  rewrite v4_singles_example. split; [exact Hbefore | exact Hafter].
Defined.

(** ** The registry invariant is kept by every operation *)

Lemma V4_wf_empty : V4_wf V4.empty.
Proof. split; simpl; [constructor | tauto]. Qed.

Lemma V4_wf_prompt_add_player (name : string) (w : V4.world) :
  V4_wf w -> V4_wf (V4.prompt_add_player name w).
Proof. intros Hwf. unfold V4.prompt_add_player, alloc. now apply wf_add_new. Qed.

Lemma V4_wf_without (names : list string) (h : heap) (d : V4.dict)
    (ms ms' : list V4.Match.t) :
  V4_wf (V4.mkWorld h (V4.Queue.mk d ms)) ->
  V4_wf (V4.mkWorld h (V4.Queue.mk (without names d) ms')).
Proof.
  intros [Hnd Hent]. split; simpl in *.
  - now apply NoDup_keys_without.
  - intros k a Hin. apply Hent. now apply in_without with names.
Qed.

Lemma V4_wf_create_match (now : nat) (mt : match_type) (w : V4.world) :
  V4_wf w -> V4_wf (snd (V4.create_match now mt w)).
Proof.
  intros Hwf.
  destruct (Nat.lt_ge_cases (length (V4.Queue.players (V4.queue w))) (needed mt))
    as [Hlt|Hge].
  - now rewrite V4_create_match_short.
  - destruct w as [h [d ms]]. destruct mt; simpl in Hge.
    + rewrite V4_create_singles_spec by assumption. simpl.
      now apply V4_wf_without with ms.
    + rewrite V4_create_doubles_spec by assumption. simpl.
      now apply V4_wf_without with ms.
Qed.

Lemma update_ratings_length (h : heap) (ps : participants) (o : Z) :
  length (update_ratings h ps o) = length h.
Proof.
  destruct ps as [p0 p1|team1 team2]; simpl.
  - now rewrite !call_length.
  - now rewrite !calls_length.
Qed.

Lemma V4_wf_record_match_outcome (match_id o : Z) (score : string) (w : V4.world) :
  V4_wf w -> V4_wf (snd (V4.record_match_outcome match_id o score w)).
Proof.
  intros Hwf. unfold V4.record_match_outcome.
  destruct (negb _); auto.
  destruct (nth_error _ _) as [m|]; auto.
  destruct Hwf as [Hnd Hent]. split; simpl; auto.
  intros k a Hin. destruct (Hent k a Hin) as [Hlt Hname].
  rewrite update_ratings_length. split; auto.
  fold (name_at (update_ratings (V4.objects w) (V4.Match.players m) o) a).
  now rewrite update_ratings_name.
Qed.

Lemma V4_wf_prompt_remove_player (name : string) (w : V4.world) :
  V4_wf w -> V4_wf (snd (V4.prompt_remove_player name w)).
Proof.
  intros Hwf. unfold V4.prompt_remove_player, V4.remove_player.
  destruct (V4.dict_get name _) as [a|] eqn:E; auto.
  assert (Hin : In name (V4.keys (V4.Queue.players (V4.queue w)))).
  { apply dict_get_in in E. change name with (fst (name, a)). now apply in_map. }
  rewrite dict_del_spec by (auto; apply Hwf). simpl.
  destruct w as [h [d ms]]. now apply V4_wf_without with ms.
Qed.

(** In v1.py the pool stays a pool of distinct players. *)
Lemma V1_create_match_pool (mt : match_type) (w : V1.world) (m : V1.Match.t)
    (w' : V1.world) :
  NoDup (V1.Queue.players (V1.queue w)) ->
  V1.create_match mt w = (Return (Some m), w') ->
  NoDup (V1.Queue.players (V1.queue w')) /\
  Permutation (members (V1.Match.players m) ++ V1.Queue.players (V1.queue w'))
              (V1.Queue.players (V1.queue w)).
Proof.
  intros Hnd Hrun.
  pose proof (V1_create_match_needs mt w m w' Hrun) as Hlen.
  destruct mt; simpl in Hlen.
  - destruct (V1_create_singles_spec w Hnd Hlen)
      as [i [dq [_ [_ [_ [Hperm Hspec]]]]]].
    cbv zeta in Hspec. rewrite Hspec in Hrun. injection Hrun as <- <-.
    cbn [members V1.Match.players V1.queue V1.Queue.players app].
    split; auto.
    apply (Permutation_NoDup (Permutation_sym Hperm)) in Hnd.
    inversion Hnd as [|? ? _ Hnd']; subst. now inversion Hnd'.
  - destruct (V1_create_doubles_spec w Hnd Hlen)
      as [p1 [p2 [p3 [p4 [dq [_ [_ [_ [Hperm Hspec]]]]]]]]].
    cbv zeta in Hspec. rewrite Hspec in Hrun. injection Hrun as <- <-.
    cbn [members V1.Match.players V1.queue V1.Queue.players app] in *.
    split.
    + apply (Permutation_NoDup (Permutation_sym Hperm)) in Hnd.
      repeat (match goal with H : NoDup (_ :: _) |- _ => inversion H; subst; clear H end).
      assumption.
    + rewrite <- Hperm. apply perm_skip. apply perm_swap.
Qed.

(** ** [int(str(z))] is [z] *)

Lemma digits_of_uint (d : Decimal.uint) :
  forall acc prev, d <> Decimal.Nil \/ prev = true ->
  digits (NilEmpty.string_of_uint d) acc prev = Some (uint_val d acc).
Proof.
  induction d; intros acc prev Hor;
    try (cbn [NilEmpty.string_of_uint digits uint_val];
         match goal with
         | |- context [digit_of (Ascii ?a ?b ?c ?d ?e ?f ?g ?h)] =>
             let v := eval vm_compute in (digit_of (Ascii a b c d e f g h)) in
             change (digit_of (Ascii a b c d e f g h)) with v
         end;
         cbv iota; apply IHd; now right).
  simpl. destruct Hor as [H| ->]; [congruence | reflexivity].
Qed.

Lemma uint_val_pos (d : Decimal.uint) :
  forall p, uint_val d (Z.pos p) = Z.pos (Pos.of_uint_acc d p).
Proof.
  induction d; intros p; cbn [uint_val Pos.of_uint_acc]; auto;
    rewrite <- IHd; f_equal; lia.
Qed.

Lemma uint_val_zero (d : Decimal.uint) : uint_val d 0 = Z.of_N (Pos.of_uint d).
Proof.
  induction d; cbn [uint_val Pos.of_uint]; auto;
    try (change (10 * 0 + 0)%Z with 0%Z; assumption);
    cbn [Z.mul Z.add Z.of_N]; apply uint_val_pos.
Qed.

Lemma lstrip_nospace (s : string) : nospace s = true -> lstrip s = s.
Proof.
  destruct s as [|c t]; simpl; auto.
  intros H. apply andb_prop in H as [Hc _].
  apply negb_true_iff in Hc. now rewrite Hc.
Qed.

Lemma nospace_rev (s : string) :
  forall acc, nospace s = true -> nospace acc = true ->
  nospace (rev_string s acc) = true.
Proof.
  induction s as [|c t IH]; intros acc Hs Hacc; simpl in *; auto.
  apply andb_prop in Hs as [Hc Ht]. apply IH; auto.
  simpl. now rewrite Hc, Hacc.
Qed.

Lemma rev_string_rev (s : string) :
  forall acc acc', rev_string (rev_string s acc) acc' = rev_string acc (s ++ acc')%string.
Proof.
  induction s as [|c t IH]; intros acc acc'; simpl; auto.
Qed.

Lemma append_empty (s : string) : (s ++ "")%string = s.
Proof. induction s as [|c t IH]; simpl; congruence. Qed.

Lemma strip_nospace (s : string) : nospace s = true -> strip s = s.
Proof.
  intros H. unfold strip. rewrite (lstrip_nospace s H).
  rewrite lstrip_nospace by (now apply nospace_rev).
  rewrite rev_string_rev. simpl. apply append_empty.
Qed.

Lemma nospace_of_uint (d : Decimal.uint) : nospace (NilEmpty.string_of_uint d) = true.
Proof. induction d; simpl; auto. Qed.

Lemma py_int_of_uint (d : Decimal.uint) :
  d <> Decimal.Nil ->
  py_int (NilEmpty.string_of_uint d) = Some (Z.of_N (Pos.of_uint d)) /\
  py_int (String "-" (NilEmpty.string_of_uint d)) = Some (- Z.of_N (Pos.of_uint d))%Z.
Proof.
  intros Hd. unfold py_int.
  rewrite strip_nospace by apply nospace_of_uint.
  rewrite strip_nospace by (simpl; apply nospace_of_uint).
  rewrite <- uint_val_zero. split.
  - rewrite <- (digits_of_uint d 0%Z false) by now left.
    destruct d; try congruence; reflexivity.
  - rewrite (digits_of_uint d 0%Z false) by now left. reflexivity.
Qed.

Lemma py_int_str_int (z : Z) : py_int (str_int z) = Some z.
Proof.
  unfold str_int. destruct z as [|p|p]; [reflexivity| |]; simpl.
  - unfold NilZero.string_of_uint.
    pose proof (DecimalPos.Unsigned.to_uint_nonnil p) as Hn.
    destruct (py_int_of_uint (Pos.to_uint p) Hn) as [H _].
    rewrite DecimalPos.Unsigned.of_to in H.
    destruct (Pos.to_uint p); try congruence; exact H.
  - unfold NilZero.string_of_uint.
    pose proof (DecimalPos.Unsigned.to_uint_nonnil p) as Hn.
    destruct (py_int_of_uint (Pos.to_uint p) Hn) as [_ H].
    rewrite DecimalPos.Unsigned.of_to in H.
    destruct (Pos.to_uint p); try congruence; exact H.
Qed.

(** ** v4.py: a registry of [int] ratings is reloaded as it was saved *)

Lemma dict_set_new (n : string) (v : addr) (d : V4.dict) :
  ~ In n (V4.keys d) -> V4.dict_set n v d = d ++ [(n, v)].
Proof.
  induction d as [|[k a] t IH]; simpl; auto.
  intros Hn. destruct (String.eqb k n) eqn:E.
  - apply String.eqb_eq in E. tauto.
  - rewrite IH; tauto.
Qed.

Lemma triplets_add_new (w : V4.world) (p : Player.t) :
  V4_wf w -> ~ In (Player.name p) (V4.keys (V4.Queue.players (V4.queue w))) ->
  V4.triplets (V4.add_player (V4.mkWorld (V4.objects w ++ [p]) (V4.queue w))
                             (length (V4.objects w)))
  = V4.triplets w ++ [(str_id (Player.id p), Player.name p, Player.elo p)].
Proof.
  intros [_ Hent] Hnew. unfold V4.triplets, V4.add_player. simpl.
  rewrite deref_alloc, dict_set_new by assumption.
  unfold V4.values. rewrite !map_app. simpl. rewrite deref_alloc. f_equal.
  rewrite !map_map. apply map_ext_in. intros [k a] Hin. simpl.
  destruct (Hent k a Hin) as [Hlt _]. now rewrite deref_app_old.
Qed.

Lemma keys_add_new (w : V4.world) (p : Player.t) :
  ~ In (Player.name p) (V4.keys (V4.Queue.players (V4.queue w))) ->
  V4.keys (V4.Queue.players (V4.queue
    (V4.add_player (V4.mkWorld (V4.objects w ++ [p]) (V4.queue w))
                   (length (V4.objects w)))))
  = V4.keys (V4.Queue.players (V4.queue w)) ++ [Player.name p].
Proof.
  intros Hnew. unfold V4.add_player. simpl. rewrite deref_alloc.
  now apply keys_dict_set_new.
Qed.

Lemma load_saved_ints (str_float : R -> string) (h : heap) (vs : list addr) :
  (forall a, In a vs -> exists z, Player.elo (deref h a) = PyInt z) ->
  NoDup (map (name_at h) vs) ->
  forall w0, V4_wf w0 ->
  (forall a, In a vs -> ~ In (name_at h a) (V4.keys (V4.Queue.players (V4.queue w0)))) ->
  V4.triplets
    (V4.load_players_from_csv
       (map (fun player =>
               let p := deref h player in
               [str_id (Player.id p); Player.name p; V4.str_num str_float (Player.elo p)])
            vs) w0)
  = V4.triplets w0 ++
    map (fun player =>
           let p := deref h player in
           (str_id (Player.id p), Player.name p, Player.elo p)) vs.
Proof.
  induction vs as [|a rest IH]; intros Hint Hnd w0 Hwf Hfresh; simpl.
  - now rewrite app_nil_r.
  - destruct (Hint a (or_introl eq_refl)) as [z Hz].
    rewrite Hz. simpl. rewrite py_int_str_int. unfold alloc.
    inversion Hnd as [|? ? Hn Hnd']; subst.
    set (p := Player.init (IdStr (str_id (Player.id (deref h a))))
                          (Player.name (deref h a)) (PyInt z)).
    assert (Hnew : ~ In (Player.name p) (V4.keys (V4.Queue.players (V4.queue w0))))
      by (apply (Hfresh a); now left).
    rewrite IH; auto.
    + rewrite triplets_add_new by assumption. rewrite <- app_assoc. reflexivity.
    + intros b Hb. apply Hint. now right.
    + now apply wf_add_new.
    + intros b Hb. rewrite keys_add_new by assumption.
      intros Hin. apply in_app_or in Hin as [Hin|[Heq|[]]].
      * revert Hin. apply Hfresh. now right.
      * apply Hn. simpl in Heq. fold (name_at h a) in Heq. rewrite Heq.
        now apply in_map.
Qed.

(** When every rating of the registry is an [int], saving and reloading
    gives back the same [(id, name, rating)] triplets, in the same order. *)
Lemma int_ratings_round_trip (str_float : R -> string) (w : V4.world) :
  V4_wf w ->
  (forall a, In a (V4.values (V4.Queue.players (V4.queue w))) ->
     exists z, Player.elo (deref (V4.objects w) a) = PyInt z) ->
  V4.triplets (V4.load_players_from_csv (V4.save_players_to_csv str_float w) V4.empty)
  = V4.triplets w.
Proof.
  intros Hwf Hint. unfold V4.save_players_to_csv.
  rewrite load_saved_ints; auto.
  - rewrite wf_names by assumption. apply Hwf.
  - apply V4_wf_empty.
Qed.

(** ** v1.py: recording the outcome of a doubles match *)

(** [Match.record_outcome] walks [self.players], which for a doubles match
    holds the two team lists: the call raises before any rating is
    updated, and no [Player] object changes. *)
Lemma V1_record_doubles_raises (w : V1.world) (i : nat) (m : V1.Match.t)
    (team1 team2 : list addr) (o : Z) :
  nth_error (V1.Queue.matches (V1.queue w)) i = Some m ->
  V1.Match.players m = Teams team1 team2 ->
  fst (V1.record_match_outcome (Z.of_nat i) o w) = Raise AttributeError /\
  V1.objects (snd (V1.record_match_outcome (Z.of_nat i) o w)) = V1.objects w.
Proof.
  intros Hnth Hteams. unfold V1.record_match_outcome, V1.index_of.
  assert (Hi : (i < length (V1.Queue.matches (V1.queue w)))%nat)
    by (apply nth_error_Some; congruence).
  replace (Z.of_nat i <? 0)%Z with false by (symmetry; apply Z.ltb_ge; lia).
  replace (0 <=? Z.of_nat i)%Z with true by (symmetry; apply Z.leb_le; lia).
  replace (Z.of_nat i <? Z.of_nat (length (V1.Queue.matches (V1.queue w))))%Z with true
    by (symmetry; apply Z.ltb_lt; lia).
  simpl. rewrite Nat2Z.id, Hnth. unfold V1.record_outcome. rewrite Hteams.
  simpl. auto.
Qed.

(** ** v4.py: every session keeps the registry filed by name *)

Lemma V4_wf_prompt_user (c : V4.command) (w : V4.world) :
  V4_wf w -> V4_wf (V4.prompt_user c w).
Proof.
  intros Hwf. destruct c; simpl.
  - now apply V4_wf_prompt_add_player.
  - now apply V4_wf_prompt_remove_player.
  - now apply V4_wf_create_match.
  - now apply V4_wf_record_match_outcome.
Qed.

Lemma V4_wf_session (rows : csv_file) (cs : list V4.command) :
  V4_wf (V4.session rows cs).
Proof.
  unfold V4.session.
  apply fold_left_preserves.
  - intros w c _ Hwf. now apply V4_wf_prompt_user.
  - apply load_wf, V4_wf_empty.
Qed.

(** ** v4.py: in a session no registered player has been rated *)

Lemma values_dict_set (n : string) (v a : addr) (d : V4.dict) :
  In a (V4.values (V4.dict_set n v d)) -> a = v \/ In a (V4.values d).
Proof.
  unfold V4.values. intros Hin. apply in_map_iff in Hin as [[k a'] [Heq Hin]].
  simpl in Heq; subst a'.
  apply dict_set_in in Hin as [[_ ->]|Hin]; auto.
  right. change a with (snd (k, a)). now apply in_map.
Qed.

Lemma values_without (names : list string) (d : V4.dict) (a : addr) :
  In a (V4.values (without names d)) -> In a (V4.values d).
Proof.
  unfold V4.values. intros Hin. apply in_map_iff in Hin as [e [Heq Hin]].
  apply in_map_iff. exists e. split; auto. now apply in_without with names.
Qed.

Lemma unrated_add_new (w : V4.world) (p : Player.t) (z : Z) :
  Player.elo p = PyInt z ->
  V4_wf w -> V4_unrated w ->
  V4_unrated (V4.add_player (V4.mkWorld (V4.objects w ++ [p]) (V4.queue w))
                            (length (V4.objects w))).
Proof.
  intros Hp [_ Hent] [Hint Hm]. unfold V4.add_player. simpl. split; simpl.
  - intros a Ha. apply values_dict_set in Ha as [->|Ha].
    + rewrite deref_alloc. eauto.
    + assert (Hlt : (a < length (V4.objects w))%nat).
      { unfold V4.values in Ha. apply in_map_iff in Ha as [[k a'] [Heq Hin]].
        simpl in Heq; subst a'. now apply (Hent k a). }
      rewrite deref_app_old by assumption. now apply Hint.
  - intros m a Hin Ha. destruct (Hm m a Hin Ha) as [Hlt Hnot].
    rewrite length_app. simpl. split; [lia|].
    intros Hv. apply values_dict_set in Hv as [->|Hv]; [lia | contradiction].
Qed.

Lemma unrated_load (rows : csv_file) :
  forall w, V4_wf w -> V4_unrated w ->
  V4_unrated (V4.load_players_from_csv rows w).
Proof.
  induction rows as [|row rest IH]; intros w Hwf Hun; simpl; auto.
  destruct row as [|id [|name [|elo [|x row']]]]; auto.
  destruct (py_int elo) as [z|]; auto.
  apply IH; [now apply wf_add_new | now apply unrated_add_new with z].
Qed.

Lemma unrated_without (names : list string) (h : heap) (d : V4.dict)
    (ms : list V4.Match.t) :
  V4_unrated (V4.mkWorld h (V4.Queue.mk d ms)) ->
  V4_unrated (V4.mkWorld h (V4.Queue.mk (without names d) ms)).
Proof.
  intros [Hint Hm]. split; simpl in *.
  - intros a Ha. apply Hint. now apply values_without with names.
  - intros m a Hin Ha. destruct (Hm m a Hin Ha) as [Hlt Hnot].
    split; auto. intros Hv. apply Hnot. now apply values_without with names.
Qed.

Lemma call_other (h : heap) (self a : addr) (opp : Player.t) (o : Z) :
  self <> a -> deref (call_calculate_elo h self opp o) a = deref h a.
Proof. intros; unfold call_calculate_elo; now apply deref_store_other. Qed.

Lemma calls_other (team : list addr) (opp : Player.t) (o : Z) (a : addr) :
  ~ In a team ->
  forall h,
  deref (fold_left (fun h' player => call_calculate_elo h' player opp o) team h) a =
  deref h a.
Proof.
  induction team as [|p rest IH]; intros Hn h; simpl in *; auto.
  rewrite IH by tauto. apply call_other. tauto.
Qed.

(** A rating update changes the players of the match only. *)
Lemma update_ratings_other (h : heap) (ps : participants) (o : Z) (a : addr) :
  ~ In a (members ps) -> deref (update_ratings h ps o) a = deref h a.
Proof.
  intros Hn. destruct ps as [p0 p1|team1 team2]; simpl in *.
  - rewrite !call_other; tauto.
  - rewrite !calls_other; auto; intros Hin; apply Hn, in_or_app; auto.
Qed.

Lemma in_set_nth {A : Type} (l : list A) (i : nat) (x y : A) :
  In y (V4.set_nth l i x) -> y = x \/ In y l.
Proof.
  revert i; induction l as [|z t IH]; intros [|i]; simpl; auto.
  - intros [<-|Hin]; auto.
  - intros [<-|Hin]; auto. destruct (IH i Hin); auto.
Qed.

Lemma unrated_prompt_user (c : V4.command) (w : V4.world) :
  V4_wf w -> V4_unrated w -> V4_unrated (V4.prompt_user c w).
Proof.
  intros Hwf Hun. destruct c as [name|name|mt now|match_id o score]; simpl.
  - unfold V4.prompt_add_player, alloc.
    now apply unrated_add_new with 1200%Z.
  - unfold V4.prompt_remove_player, V4.remove_player.
    destruct (V4.dict_get name _) as [a|] eqn:E; auto.
    assert (Hin : In name (V4.keys (V4.Queue.players (V4.queue w)))).
    { apply dict_get_in in E. change name with (fst (name, a)). now apply in_map. }
    rewrite dict_del_spec by (auto; apply Hwf). simpl.
    destruct w as [h [d ms]]. now apply unrated_without.
  - destruct (V4.create_match now mt w) as [[[m|]|e] w'] eqn:Hrun.
    + destruct (V4_create_match_inv now mt w m w' Hwf Hrun) as [Hincl [_ ->]].
      destruct Hun as [Hint Hm]. pose proof Hwf as [Hnd Hent].
      split; simpl.
      * intros a Ha. apply Hint. now apply values_without in Ha.
      * intros m' a Hin Ha. apply in_app_or in Hin as [Hin|[<-|[]]].
        -- destruct (Hm m' a Hin Ha) as [Hlt Hnot]. split; auto.
           intros Hv. apply Hnot. now apply values_without in Hv.
        -- assert (Hv : In a (V4.values (V4.Queue.players (V4.queue w))))
             by now apply Hincl.
           unfold V4.values in Hv. apply in_map_iff in Hv as [[k a'] [Heq Hv]].
           simpl in Heq; subst a'. destruct (Hent k a Hv) as [Hlt Hname].
           split; auto. intros Hgone.
           unfold V4.values in Hgone.
           apply in_map_iff in Hgone as [[k' a'] [Heq Hgone]].
           simpl in Heq; subst a'.
           assert (Hk' : In k' (V4.keys (without
                     (map (name_at (V4.objects w)) (members (V4.Match.players m)))
                     (V4.Queue.players (V4.queue w)))))
             by (change k' with (fst (k', a)); now apply in_map).
           apply keys_without in Hk' as [_ Hk'].
           apply in_without in Hgone. destruct (Hent k' a Hgone) as [_ Hname'].
           apply Hk'. rewrite <- Hname'. now apply (in_map (name_at (V4.objects w))).
    + pose proof (V4_create_match_short now mt w) as Hshort.
      destruct (Nat.lt_ge_cases (length (V4.Queue.players (V4.queue w))) (needed mt))
        as [Hlt|Hge].
      * rewrite Hshort in Hrun by assumption. now injection Hrun as <-.
      * exfalso. destruct mt; simpl in Hge.
        -- rewrite V4_create_singles_spec in Hrun by assumption. discriminate.
        -- rewrite V4_create_doubles_spec in Hrun by assumption. discriminate.
    + exfalso.
      destruct (Nat.lt_ge_cases (length (V4.Queue.players (V4.queue w))) (needed mt))
        as [Hlt|Hge].
      * rewrite V4_create_match_short in Hrun by assumption. discriminate.
      * destruct mt; simpl in Hge.
        -- rewrite V4_create_singles_spec in Hrun by assumption. discriminate.
        -- rewrite V4_create_doubles_spec in Hrun by assumption. discriminate.
  - unfold V4.record_match_outcome.
    destruct (negb _); auto.
    destruct (nth_error _ _) as [m|] eqn:Hnth; auto.
    destruct Hun as [Hint Hm]. apply nth_error_In in Hnth.
    split; simpl.
    + intros a Ha. rewrite update_ratings_other; auto.
      intros Hmem. now destruct (Hm m a Hnth Hmem).
    + intros m' a Hin Ha. rewrite update_ratings_length.
      apply in_set_nth in Hin as [->|Hin]; eauto.
Qed.

(** In every session of v4.py the registered players all have [int]
    ratings, so the registry is reloaded as it was saved. *)
Lemma V4_session_unrated (rows : csv_file) (cs : list V4.command) :
  V4_wf (V4.session rows cs) /\ V4_unrated (V4.session rows cs).
Proof.
  unfold V4.session.
  apply (fold_left_preserves (fun w => V4_wf w /\ V4_unrated w)).
  - intros w c _ [Hwf Hun]. split;
      [now apply V4_wf_prompt_user | now apply unrated_prompt_user].
  - split; [apply load_wf, V4_wf_empty|].
    apply unrated_load; [apply V4_wf_empty|].
    split; simpl; tauto.
Qed.

Lemma V4_session_round_trip (str_float : R -> string) (rows : csv_file)
    (cs : list V4.command) :
  V4.triplets
    (V4.load_players_from_csv
       (V4.save_players_to_csv str_float (V4.session rows cs)) V4.empty)
  = V4.triplets (V4.session rows cs).
Proof.
  destruct (V4_session_unrated rows cs) as [Hwf [Hint _]].
  now apply int_ratings_round_trip.
Qed.

(** * Further properties of the code *)

(** ** The rating model *)



(** The expectation rises with the player's own rating. *)
Lemma expectation_increasing (a a' b : R) :
  a < a' -> Player._elo_expectation a b < Player._elo_expectation a' b.
Proof.
  intros Hlt. unfold Player._elo_expectation.
  pose proof (Rpower10_pos ((b - a') / 400)) as Hpos.
  assert (Hp : Rpower 10 ((b - a') / 400) < Rpower 10 ((b - a) / 400))
    by (apply Rpower_lt; lra).
  unfold Rdiv. rewrite !Rmult_1_l.
  apply Rinv_lt_contravar; [|lra].
  apply Rmult_lt_0_compat; lra.
Qed.





(** ** Recording a singles outcome, in general *)




(** ** Recording a doubles outcome: the order inside the teams *)

Lemma store_comm (h : heap) (a b : addr) (x y : Player.t) :
  a <> b -> store (store h a x) b y = store (store h b y) a x.
Proof.
  revert a b; induction h as [|p t IH]; intros [|a] [|b] Hne; simpl;
    try congruence.
  f_equal. apply IH. congruence.
Qed.

Lemma call_comm (h : heap) (p q : addr) (opp : Player.t) (o : Z) :
  call_calculate_elo (call_calculate_elo h p opp o) q opp o =
  call_calculate_elo (call_calculate_elo h q opp o) p opp o.
Proof.
  destruct (Nat.eq_dec p q) as [->|Hne]; [reflexivity|].
  unfold call_calculate_elo.
  rewrite !deref_store_other by congruence.
  now apply store_comm.
Qed.

Lemma fold_left_permutation {S X : Type} (f : S -> X -> S) :
  (forall s x y, f (f s x) y = f (f s y) x) ->
  forall l l', Permutation l l' -> forall s, fold_left f l s = fold_left f l' s.
Proof.
  intros Hcomm l l' Hp. induction Hp; intros s; simpl; auto.
  - now rewrite Hcomm.
  - now rewrite IHHp1.
Qed.

Lemma sum_elo_permutation (h : heap) (team team' : list addr) :
  Permutation team team' -> sum_elo h team = sum_elo h team'.
Proof.
  intros Hp. unfold sum_elo. apply fold_left_permutation; auto.
  intros; lra.
Qed.

(** X5. The rating update of a doubles match does not depend on the order
    in which the players stand inside their team (the order of team2 comes
    out of a Python set in v1.py): reordering either team gives the same
    ratings for everybody. *)
Theorem doubles_update_ignores_team_order (h : heap) (team1 team1' team2 team2' : list addr)
    (o : Z) :
  Permutation team1 team1' -> Permutation team2 team2' ->
  update_ratings h (Teams team1' team2') o = update_ratings h (Teams team1 team2) o.
Proof.
  intros H1 H2. unfold update_ratings.
  rewrite <- (sum_elo_permutation h team1 team1' H1).
  rewrite <- (sum_elo_permutation h team2 team2' H2).
  rewrite <- (fold_left_permutation _ (fun s x y => call_comm s x y _ _) team1 team1' H1).
  now rewrite <- (fold_left_permutation _ (fun s x y => call_comm s x y _ _) team2 team2' H2).
Qed.

Lemma doubles_update_ignores_team_order_witness :
  update_ratings players_four_1000 (Teams [0; 2]%nat [3; 1]%nat) 1 =
  update_ratings players_four_1000 (Teams [0; 2]%nat [1; 3]%nat) 1.
Proof.
  apply doubles_update_ignores_team_order; [apply Permutation_refl | apply perm_swap].
Defined.

(** ** v4.py: recording, again and out of range *)

Lemma V4_set_nth_length {A : Type} (l : list A) (i : nat) (x : A) :
  length (V4.set_nth l i x) = length l.
Proof. revert i; induction l as [|y t IH]; intros [|i]; simpl; auto. Qed.

Lemma V4_nth_error_set_nth {A : Type} (l : list A) (i j : nat) (x : A) :
  (i < length l)%nat ->
  nth_error (V4.set_nth l i x) j = if Nat.eqb i j then Some x else nth_error l j.
Proof.
  revert i j; induction l as [|y t IH]; intros [|i] [|j] Hlt; simpl in *;
    try lia; auto.
  apply IH. lia.
Qed.




(** X7. Choice "5" of v4.py with a match id that is negative or not below
    the length of the ledger reports "Invalid match id." and changes
    nothing: no rating, no score, no ledger entry. *)
Theorem invalid_match_id_changes_nothing (w : V4.world) (match_id outcome : Z)
    (score : string) :
  (match_id < 0 \/ Z.of_nat (length (V4.Queue.matches (V4.queue w))) <= match_id)%Z ->
  V4.record_match_outcome match_id outcome score w = (false, w).
Proof.
  intros Hout. unfold V4.record_match_outcome.
  destruct (0 <=? match_id)%Z eqn:E0; simpl; auto.
  destruct (match_id <? Z.of_nat (length (V4.Queue.matches (V4.queue w))))%Z eqn:E1;
    simpl; auto.
  apply Z.leb_le in E0. apply Z.ltb_lt in E1. lia.
Qed.

Lemma invalid_match_id_changes_nothing_witness :
  V4.record_match_outcome (-1) 1 "21-19" v4_pool_1000_1005_1200
  = (false, v4_pool_1000_1005_1200).
Proof.
  apply invalid_match_id_changes_nothing. left. lia.
Defined.

(** ** v4.py: adding, removing and looking up by name *)

Lemma dict_get_without_other (names : list string) (d : V4.dict) (k : string) :
  ~ In k names -> V4.dict_get k (without names d) = V4.dict_get k d.
Proof.
  intros Hn. unfold without. induction d as [|[k' a] t IH]; simpl; auto.
  destruct (existsb (String.eqb k') names) eqn:E; simpl.
  - destruct (String.eqb k' k) eqn:Ek; auto.
    apply String.eqb_eq in Ek; subst k'.
    apply existsb_exists in E as [x [Hx Hxe]].
    apply String.eqb_eq in Hxe; subst x. contradiction.
  - now rewrite IH.
Qed.

Lemma without_fresh_end (n : string) (v : addr) (d : V4.dict) :
  ~ In n (V4.keys d) -> without [n] (d ++ [(n, v)]) = d.
Proof.
  intros Hn. unfold without. rewrite filter_app. simpl.
  rewrite String.eqb_refl. simpl. rewrite app_nil_r.
  apply forallb_filter_id. apply forallb_forall. intros [k a] Hin. simpl.
  destruct (String.eqb k n) eqn:E; auto.
  apply String.eqb_eq in E; subst k. exfalso. apply Hn.
  change n with (fst (n, a)). now apply in_map.
Qed.

(** X8. [Queue.remove_player] of v4.py on a name that is not registered
    raises [KeyError] and changes nothing; choice "2" of the prompt tests
    [name in queue.players] first, so there it only reports
    "Player not found.". *)
Theorem removing_a_missing_name (w : V4.world) (name : string) :
  V4.dict_get name (V4.Queue.players (V4.queue w)) = None ->
  V4.remove_player w name = (Raise (KeyError name), w) /\
  V4.prompt_remove_player name w = (Return false, w).
Proof.
  intros Hnone. unfold V4.prompt_remove_player, V4.remove_player.
  rewrite Hnone. rewrite dict_del_missing by now apply dict_get_none.
  auto.
Qed.

Lemma removing_a_missing_name_witness :
  V4.remove_player v4_pool_1000_1005_1200 "z"
    = (Raise (KeyError "z"), v4_pool_1000_1005_1200) /\
  V4.prompt_remove_player "z" v4_pool_1000_1005_1200
    = (Return false, v4_pool_1000_1005_1200).
Proof.
  apply removing_a_missing_name. reflexivity.
Defined.

(** X9. Choice "2" of v4.py on a registered name removes that entry and
    nothing else: afterwards the name is not found, every other name looks
    up the same player as before, in the same order, and no [Player]
    object and no match has changed. *)
Theorem removing_a_registered_name (w : V4.world) (name : string) (a : addr) :
  V4_wf w ->
  V4.dict_get name (V4.Queue.players (V4.queue w)) = Some a ->
  exists w',
    V4.prompt_remove_player name w = (Return true, w') /\
    V4.objects w' = V4.objects w /\
    V4.Queue.matches (V4.queue w') = V4.Queue.matches (V4.queue w) /\
    V4.Queue.players (V4.queue w') =
      filter (fun e => negb (String.eqb (fst e) name)) (V4.Queue.players (V4.queue w)) /\
    V4.prompt_view_player name w' = None /\
    forall k, k <> name -> V4.prompt_view_player k w' = V4.prompt_view_player k w.
Proof.
  intros Hwf Hget.
  assert (Hin : In name (V4.keys (V4.Queue.players (V4.queue w)))).
  { apply dict_get_in in Hget. change name with (fst (name, a)). now apply in_map. }
  unfold V4.prompt_remove_player, V4.remove_player. rewrite Hget.
  rewrite dict_del_spec by (auto; apply Hwf).
  eexists. split; [reflexivity|]. simpl. repeat split.
  - unfold without. apply filter_ext. intros [k v]. simpl.
    now rewrite orb_false_r.
  - unfold V4.prompt_view_player. simpl.
    rewrite dict_get_without; simpl; auto.
  - intros k Hk. unfold V4.prompt_view_player. simpl.
    rewrite dict_get_without_other; auto.
    simpl. intros [Heq|[]]. congruence.
Qed.

Lemma removing_a_registered_name_witness :
  exists w',
    V4.prompt_remove_player "b" v4_pool_1000_1005_1200 = (Return true, w') /\
    V4.prompt_view_player "b" w' = None.
Proof.
  destruct (removing_a_registered_name v4_pool_1000_1005_1200 "b" 1%nat v4_pool_wf eq_refl)
    as [w' [Hrun [_ [_ [_ [Hgone _]]]]]].
  exists w'. split; [exact Hrun | exact Hgone].
Defined.

Lemma removing_a_registered_name_aux (w : V4.world) (name : string) (a : addr) :
  V4_wf w ->
  V4.dict_get name (V4.Queue.players (V4.queue w)) = Some a ->
  exists w',
    V4.prompt_remove_player name w = (Return true, w') /\
    V4.Queue.players (V4.queue w') = without [name] (V4.Queue.players (V4.queue w)) /\
    V4.prompt_view_player name w' = None.
Proof.
  intros Hwf Hget.
  assert (Hin : In name (V4.keys (V4.Queue.players (V4.queue w)))).
  { apply dict_get_in in Hget. change name with (fst (name, a)). now apply in_map. }
  unfold V4.prompt_remove_player, V4.remove_player. rewrite Hget.
  rewrite dict_del_spec by (auto; apply Hwf).
  eexists. split; [reflexivity|]. simpl. split; auto.
  unfold V4.prompt_view_player. simpl.
  rewrite dict_get_without; simpl; auto.
Qed.

(** X10. Choice "1" of v4.py then a lookup: the name finds the new player,
    rated 1200, available, without history, whose id is the number of
    players registered before; every other name finds the same player as
    before.  Removing the name again makes the lookup fail, and when the
    name was new the registry is back to what it was. *)
Theorem adding_then_looking_up (w : V4.world) (name : string) :
  V4_wf w ->
  let added := V4.prompt_add_player name w in
  V4.prompt_view_player name added =
    Some (Player.mk (IdInt (Z.of_nat (length (V4.Queue.players (V4.queue w)))))
                    name (PyInt 1200) true []) /\
  (forall k, k <> name -> V4.prompt_view_player k added = V4.prompt_view_player k w) /\
  (exists removed,
     V4.prompt_remove_player name added = (Return true, removed) /\
     V4.prompt_view_player name removed = None /\
     (V4.dict_get name (V4.Queue.players (V4.queue w)) = None ->
      V4.Queue.players (V4.queue removed) = V4.Queue.players (V4.queue w))).
Proof.
  intros Hwf added.
  assert (Hwf' : V4_wf added) by now apply V4_wf_prompt_add_player.
  assert (Hget : V4.dict_get name (V4.Queue.players (V4.queue added))
                 = Some (length (V4.objects w))).
  { unfold added, V4.prompt_add_player, alloc, V4.add_player. simpl.
    rewrite deref_alloc. simpl. apply dict_get_set_same. }
  split; [|split].
  - unfold V4.prompt_view_player. rewrite Hget.
    unfold added, V4.prompt_add_player, alloc, V4.add_player. simpl.
    now rewrite deref_alloc.
  - intros k Hk. unfold V4.prompt_view_player.
    unfold added, V4.prompt_add_player, alloc, V4.add_player. simpl.
    rewrite deref_alloc. simpl. rewrite dict_get_set_other by assumption.
    destruct (V4.dict_get k (V4.Queue.players (V4.queue w))) as [b|] eqn:E; auto.
    apply dict_get_in in E. destruct Hwf as [_ Hent].
    destruct (Hent k b E) as [Hlt _]. now rewrite deref_app_old.
  - destruct (removing_a_registered_name_aux added name _ Hwf' Hget)
      as [removed [Hrun [Hd Hgone]]].
    exists removed. split; [exact Hrun|]. split; [exact Hgone|].
    intros Hnew. rewrite Hd.
    unfold added, V4.prompt_add_player, alloc, V4.add_player. simpl.
    rewrite deref_alloc. simpl.
    apply dict_get_none in Hnew.
    rewrite dict_set_new by assumption. now apply without_fresh_end.
Qed.

Lemma adding_then_looking_up_witness :
  V4.prompt_view_player "d" (V4.prompt_add_player "d" v4_pool_1000_1005_1200)
  = Some (Player.mk (IdInt 3) "d" (PyInt 1200) true []).
Proof.
  destruct (adding_then_looking_up v4_pool_1000_1005_1200 "d" v4_pool_wf) as [H _].
  exact H.
Defined.

(** ** v4.py: who is selected for doubles *)

Lemma In_nth_index (l : list addr) (a : addr) :
  In a l -> exists i, (i < length l)%nat /\ nth i l O = a.
Proof. intros Hin. destruct (In_nth l a O Hin) as [i [Hi Hn]]. eauto. Qed.

(** X11. In v4.py (and v3.py) [create_match('doubles')] on a registry of at
    least 4 players takes the four highest rated, all distinct: team1 is
    the two highest and team2 the next two, so no member of team2 is rated
    above a member of team1, the sum of team1 is never below the sum of
    team2, and every player left in the registry is rated no higher than
    the lowest of the four. *)
Theorem doubles_takes_the_four_highest (now : nat) (w : V4.world) :
  V4_wf w -> (4 <= length (V4.Queue.players (V4.queue w)))%nat ->
  let h := V4.objects w in
  exists p1 p2 p3 p4 m w',
    V4.create_match now doubles w = (Return (Some m), w') /\
    V4.Match.players m = Teams [p1; p2] [p3; p4] /\
    NoDup [p1; p2; p3; p4] /\
    (elo_at h p1 >= elo_at h p2 /\ elo_at h p2 >= elo_at h p3 /\
     elo_at h p3 >= elo_at h p4) /\
    sum_elo h [p1; p2] >= sum_elo h [p3; p4] /\
    (forall a, In a (V4.values (V4.Queue.players (V4.queue w))) ->
       ~ In a [p1; p2; p3; p4] -> elo_at h a <= elo_at h p4) /\
    (forall a, In a (V4.values (V4.Queue.players (V4.queue w'))) ->
       elo_at h a <= elo_at h p4).
Proof.
  intros Hwf Hlen h.
  set (d := V4.Queue.players (V4.queue w)) in *.
  set (s := sorted (V4.values d) (elo_at h) true).
  assert (Hps : Permutation s (V4.values d)) by apply sorted_perm.
  assert (Hls : length s = length d)
    by (rewrite (Permutation_length Hps); apply length_map).
  assert (Hnds : NoDup s)
    by (apply (Permutation_NoDup (Permutation_sym Hps)); now apply wf_values_NoDup).
  pose proof (sorted_descending (V4.values d) (elo_at h)) as Hsorted. fold s in Hsorted.
  assert (Hge : forall x y, (x < y)%nat -> (y < length s)%nat ->
                elo_at h (nth x s O) >= elo_at h (nth y s O))
    by (intros; now apply (StronglySorted_nth _ s O Hsorted)).
  assert (Hquad : NoDup [nth 0 s O; nth 1 s O; nth 2 s O; nth 3 s O]).
  { repeat constructor; simpl; intros H;
      repeat (destruct H as [H|H];
              [revert H; apply not_eq_sym, NoDup_nth_neq; auto; lia|]); auto. }
  assert (Hrest : forall a, In a (V4.values d) ->
            ~ In a [nth 0 s O; nth 1 s O; nth 2 s O; nth 3 s O] ->
            elo_at h a <= elo_at h (nth 3 s O)).
  { intros a Ha Hnot.
    apply (Permutation_in _ (Permutation_sym Hps)) in Ha.
    destruct (In_nth_index s a Ha) as [i [Hi Hn]].
    destruct (Nat.lt_ge_cases 3 i) as [Hgt|Hle].
    - specialize (Hge 3%nat i Hgt Hi). rewrite Hn in Hge. lra.
    - exfalso. apply Hnot. simpl.
      destruct i as [|[|[|[|i]]]]; try lia; rewrite <- Hn; tauto. }
  exists (nth 0 s O), (nth 1 s O), (nth 2 s O), (nth 3 s O).
  eexists. eexists.
  split; [apply (V4_create_doubles_spec now w Hwf Hlen)|].
  split; [reflexivity|]. split; [exact Hquad|].
  split; [repeat split; apply Hge; lia|].
  split.
  { rewrite !sum_elo_pair.
    pose proof (Hge 0%nat 2%nat ltac:(lia) ltac:(lia)).
    pose proof (Hge 1%nat 3%nat ltac:(lia) ltac:(lia)). lra. }
  split; [exact Hrest|].
  intros a Ha. simpl in Ha. fold h d s in Ha.
  assert (Hold : In a (V4.values d)) by now apply values_without in Ha.
  apply Hrest; auto.
  intros Hsel.
  unfold V4.values in Ha. apply in_map_iff in Ha as [[k a'] [Heq Ha]].
  simpl in Heq; subst a'.
  assert (Hk : In k (V4.keys (without
              [name_at h (nth 0 s O); name_at h (nth 1 s O);
               name_at h (nth 2 s O); name_at h (nth 3 s O)] d)))
    by (change k with (fst (k, a)); now apply in_map).
  apply keys_without in Hk as [_ Hk]. apply in_without in Ha.
  destruct Hwf as [_ Hent]. destruct (Hent k a Ha) as [_ Hname].
  apply Hk. rewrite <- Hname.
  change (In (name_at h a) (map (name_at h) [nth 0 s O; nth 1 s O; nth 2 s O; nth 3 s O])).
  now apply in_map.
Qed.

Lemma v4_pool_of_five_wf : V4_wf v4_pool_of_five.
Proof.
  split; simpl.
  - repeat constructor; simpl; intuition discriminate.
  - intros k a [[= <- <-]|[[= <- <-]|[[= <- <-]|[[= <- <-]|[[= <- <-]|[]]]]]];
      simpl; split; auto; lia.
Qed.

Lemma doubles_takes_the_four_highest_witness :
  exists p1 p2 p3 p4 m w',
    V4.create_match 0 doubles v4_pool_of_five = (Return (Some m), w') /\
    V4.Match.players m = Teams [p1; p2] [p3; p4] /\
    sum_elo (V4.objects v4_pool_of_five) [p1; p2]
      >= sum_elo (V4.objects v4_pool_of_five) [p3; p4].
Proof.
  destruct (doubles_takes_the_four_highest 0 v4_pool_of_five v4_pool_of_five_wf)
    as [p1 [p2 [p3 [p4 [m [w' [Hrun [Hm [_ [_ [Hsum _]]]]]]]]]]].
  - simpl. lia.
  - exists p1, p2, p3, p4, m, w'. split; [exact Hrun|]. split; [exact Hm | exact Hsum].
Defined.

(** ** v4.py: the ledger of a session *)

Lemma load_matches_unchanged (rows : csv_file) :
  forall w,
  V4.Queue.matches (V4.queue (V4.load_players_from_csv rows w))
  = V4.Queue.matches (V4.queue w).
Proof.
  induction rows as [|row rest IH]; intros w; simpl; auto.
  destruct row as [|id [|name [|elo [|x row']]]]; auto.
  destruct (py_int elo); auto.
  now rewrite IH.
Qed.

Lemma ledger_inv_same_matches (w w' : V4.world) :
  V4.Queue.matches (V4.queue w') = V4.Queue.matches (V4.queue w) ->
  V4_ledger_inv w -> V4_ledger_inv w'.
Proof. unfold V4_ledger_inv. intros ->. auto. Qed.

Lemma V4_create_match_shape (now : nat) (mt : match_type) (w : V4.world)
    (m : V4.Match.t) (w' : V4.world) :
  V4_wf w ->
  V4.create_match now mt w = (Return (Some m), w') ->
  V4.Match.outcome m = None /\ well_shaped m.
Proof.
  intros Hwf Hrun.
  destruct (Nat.lt_ge_cases (length (V4.Queue.players (V4.queue w))) (needed mt))
    as [Hlt|Hge].
  { rewrite V4_create_match_short in Hrun by assumption. discriminate. }
  set (d := V4.Queue.players (V4.queue w)) in *.
  set (s := sorted (V4.values d) (elo_at (V4.objects w)) true).
  assert (Hps : Permutation s (V4.values d)) by apply sorted_perm.
  assert (Hls : length s = length d)
    by (rewrite (Permutation_length Hps); apply length_map).
  assert (Hnds : NoDup s)
    by (apply (Permutation_NoDup (Permutation_sym Hps)); now apply wf_values_NoDup).
  destruct mt; simpl in Hge.
  - rewrite V4_create_singles_spec in Hrun by assumption.
    injection Hrun as <- <-. split; [reflexivity|]. split; simpl; auto.
    fold d s.
    repeat constructor; simpl; intros H;
      repeat (destruct H as [H|H];
              [revert H; apply not_eq_sym, NoDup_nth_neq; auto; lia|]); auto.
  - rewrite V4_create_doubles_spec in Hrun by assumption.
    injection Hrun as <- <-. split; [reflexivity|]. split; simpl; auto.
    fold d s.
    repeat constructor; simpl; intros H;
      repeat (destruct H as [H|H];
              [revert H; apply not_eq_sym, NoDup_nth_neq; auto; lia|]); auto.
Qed.

Lemma nth_error_snoc {A : Type} (l : list A) (x y : A) (i : nat) :
  nth_error (l ++ [x]) i = Some y ->
  (i < length l)%nat /\ nth_error l i = Some y \/ i = length l /\ y = x.
Proof.
  intros H. destruct (Nat.lt_ge_cases i (length l)) as [Hlt|Hge].
  - rewrite nth_error_app1 in H by assumption. auto.
  - rewrite nth_error_app2 in H by assumption.
    destruct (i - length l)%nat as [|k] eqn:E; simpl in H.
    + right. split; [lia | congruence].
    + destruct k; discriminate.
Qed.

Lemma ledger_inv_create_match (now : nat) (mt : match_type) (w : V4.world) :
  V4_wf w -> V4_unrated w -> V4_ledger_inv w ->
  V4_ledger_inv (snd (V4.create_match now mt w)).
Proof.
  intros Hwf [_ Hout] Hinv.
  destruct (V4.create_match now mt w) as [[[m|]|e] w'] eqn:Hrun; simpl.
  - destruct (V4_create_match_inv now mt w m w' Hwf Hrun) as [Hincl [Hid Hw']].
    destruct (V4_create_match_shape now mt w m w' Hwf Hrun) as [Hnone Hshape].
    destruct Hinv as [Hids Hdisj]. subst w'. unfold V4_ledger_inv. simpl.
    split.
    + intros i m' Hn. apply nth_error_snoc in Hn as [[_ Hn]|[-> ->]]; auto.
    + intros i j mi mj a Hi Hj Hai Haj.
      apply nth_error_snoc in Hi as [[_ Hi]|[-> ->]];
        apply nth_error_snoc in Hj as [[_ Hj]|[-> ->]]; auto.
      * now apply (Hdisj i j mi mj a).
      * exfalso. apply nth_error_In in Hi.
        destruct (Hout mi a Hi Hai) as [_ Hnot]. now apply Hnot, Hincl.
      * exfalso. apply nth_error_In in Hj.
        destruct (Hout mj a Hj Haj) as [_ Hnot]. now apply Hnot, Hincl.
  - destruct (Nat.lt_ge_cases (length (V4.Queue.players (V4.queue w))) (needed mt))
      as [Hlt|Hge].
    + rewrite V4_create_match_short in Hrun by assumption. now injection Hrun as <-.
    + exfalso. destruct mt; simpl in Hge.
      * rewrite V4_create_singles_spec in Hrun by assumption. discriminate.
      * rewrite V4_create_doubles_spec in Hrun by assumption. discriminate.
  - exfalso.
    destruct (Nat.lt_ge_cases (length (V4.Queue.players (V4.queue w))) (needed mt))
      as [Hlt|Hge].
    + rewrite V4_create_match_short in Hrun by assumption. discriminate.
    + destruct mt; simpl in Hge.
      * rewrite V4_create_singles_spec in Hrun by assumption. discriminate.
      * rewrite V4_create_doubles_spec in Hrun by assumption. discriminate.
Qed.

Lemma ledger_inv_record (match_id o : Z) (score : string) (w : V4.world) :
  V4_ledger_inv w -> V4_ledger_inv (snd (V4.record_match_outcome match_id o score w)).
Proof.
  intros Hinv. unfold V4.record_match_outcome.
  destruct (negb _); auto.
  destruct (nth_error _ _) as [m|] eqn:Hnth; auto.
  assert (Hi : (Z.to_nat match_id < length (V4.Queue.matches (V4.queue w)))%nat)
    by (apply nth_error_Some; congruence).
  destruct Hinv as [Hids Hdisj]. unfold V4_ledger_inv. simpl. split.
  - intros i m' Hn. rewrite V4_nth_error_set_nth in Hn by assumption.
    destruct (Nat.eqb_spec (Z.to_nat match_id) i) as [<-|Hne]; auto.
    injection Hn as <-. destruct (Hids _ m Hnth) as [H1 [H2 H3]]. auto.
  - intros i j mi mj a Hn1 Hn2 Hai Haj.
    rewrite V4_nth_error_set_nth in Hn1, Hn2 by assumption.
    assert (Hold : forall k mk, (if Nat.eqb (Z.to_nat match_id) k
                                 then Some (V4.Match.record_score m score)
                                 else nth_error (V4.Queue.matches (V4.queue w)) k)
                                = Some mk ->
                   exists mk', nth_error (V4.Queue.matches (V4.queue w)) k = Some mk' /\
                               V4.Match.players mk' = V4.Match.players mk).
    { intros k mk Hk. destruct (Nat.eqb_spec (Z.to_nat match_id) k) as [<-|Hne].
      - injection Hk as <-. eauto.
      - eauto. }
    destruct (Hold i mi Hn1) as [mi' [Hi1 Hp1]].
    destruct (Hold j mj Hn2) as [mj' [Hj1 Hp2]].
    apply (Hdisj i j mi' mj' a); auto; congruence.
Qed.

Lemma V4_session_invariants (rows : csv_file) (cs : list V4.command) :
  V4_wf (V4.session rows cs) /\ V4_unrated (V4.session rows cs) /\
  V4_ledger_inv (V4.session rows cs).
Proof.
  unfold V4.session.
  apply (fold_left_preserves (fun w => V4_wf w /\ V4_unrated w /\ V4_ledger_inv w)).
  - intros w c _ [Hwf [Hun Hinv]].
    split; [now apply V4_wf_prompt_user|].
    split; [now apply unrated_prompt_user|].
    destruct c as [name|name|mt now|match_id o score]; simpl.
    + apply (ledger_inv_same_matches w); auto.
    + apply (ledger_inv_same_matches w); auto.
      unfold V4.prompt_remove_player, V4.remove_player.
      destruct (V4.dict_get name _); auto.
      destruct (V4.dict_del name _); auto.
    + now apply ledger_inv_create_match.
    + now apply ledger_inv_record.
  - split; [apply load_wf, V4_wf_empty|].
    split; [apply unrated_load; [apply V4_wf_empty | split; simpl; tauto]|].
    apply (ledger_inv_same_matches V4.empty); [apply load_matches_unchanged|].
    split; simpl.
    + intros i m H. destruct i; discriminate.
    + intros i j mi mj a H. destruct i; discriminate.
Qed.

(** X12. In every session of v4.py that starts without a matches file, the
    ledger is consistent: the id of each match is its index, each match is
    a singles match of two or a doubles match of two teams of two distinct
    players, no player is in two matches, and no match ever has an outcome
    ([record_outcome] is commented out: choice "5" stores the score
    only). *)
Theorem session_ledger_is_consistent (rows : csv_file) (cs : list V4.command) :
  let ledger := V4.Queue.matches (V4.queue (V4.session rows cs)) in
  (forall i m, nth_error ledger i = Some m ->
     V4.Match.id m = i /\ V4.Match.outcome m = None /\ well_shaped m) /\
  (forall i j mi mj a,
     nth_error ledger i = Some mi -> nth_error ledger j = Some mj ->
     In a (members (V4.Match.players mi)) -> In a (members (V4.Match.players mj)) ->
     i = j).
Proof.
  destruct (V4_session_invariants rows cs) as [_ [_ Hinv]]. exact Hinv.
Qed.

Lemma V4_remove_players_matches (ps : list addr) (w : V4.world) :
  V4.Queue.matches (V4.queue (snd (V4.remove_players w ps)))
  = V4.Queue.matches (V4.queue w).
Proof.
  revert w; induction ps as [|p rest IH]; intros w; simpl; auto.
  unfold V4.remove_player.
  destruct (V4.dict_del _ _); simpl; auto.
  now rewrite IH.
Qed.

Lemma V4_create_match_ledger (now : nat) (mt : match_type) (w : V4.world) :
  exists added,
    V4.Queue.matches (V4.queue (snd (V4.create_match now mt w)))
    = V4.Queue.matches (V4.queue w) ++ added.
Proof.
  unfold V4.create_match.
  destruct (length (V4.Queue.players (V4.queue w)) <? 2)%nat;
    [exists []; now rewrite app_nil_r|].
  destruct mt.
  - match goal with
    | |- context [V4.remove_players w ?ps] =>
        pose proof (V4_remove_players_matches ps w) as H;
        destruct (V4.remove_players w ps) as [[u|e] w']
    end; simpl in *.
    + rewrite H. eauto.
    + exists []. now rewrite app_nil_r.
  - destruct (length (V4.Queue.players (V4.queue w)) <? 4)%nat;
      [exists []; now rewrite app_nil_r|].
    match goal with
    | |- context [V4.remove_players w ?ps] =>
        pose proof (V4_remove_players_matches ps w) as H;
        destruct (V4.remove_players w ps) as [[u|e] w']
    end; simpl in *.
    + rewrite H. eauto.
    + exists []. now rewrite app_nil_r.
Qed.

(** X13. The ledger of v4.py is append-only: whatever the state, no turn
    of the prompt removes, moves or renumbers a match, or changes its type,
    players or timestamp; a match stays at its index for good. *)
Theorem ledger_is_append_only (c : V4.command) (w : V4.world) (i : nat) (m : V4.Match.t) :
  nth_error (V4.Queue.matches (V4.queue w)) i = Some m ->
  exists m',
    nth_error (V4.Queue.matches (V4.queue (V4.prompt_user c w))) i = Some m' /\
    V4.Match.id m' = V4.Match.id m /\
    V4.Match.players m' = V4.Match.players m /\
    V4.Match.match_type m' = V4.Match.match_type m /\
    V4.Match.timestamp m' = V4.Match.timestamp m /\
    V4.Match.outcome m' = V4.Match.outcome m.
Proof.
  intros Hnth.
  assert (Hi : (i < length (V4.Queue.matches (V4.queue w)))%nat)
    by (apply nth_error_Some; congruence).
  destruct c as [name|name|mt now|match_id o score]; simpl.
  - exists m. unfold V4.prompt_add_player, alloc, V4.add_player. simpl.
    repeat split; auto.
  - exists m. unfold V4.prompt_remove_player, V4.remove_player.
    destruct (V4.dict_get name _); [|repeat split; auto].
    destruct (V4.dict_del name _); repeat split; auto.
  - exists m. destruct (V4_create_match_ledger now mt w) as [added ->].
    rewrite nth_error_app1 by assumption. repeat split; auto.
  - unfold V4.record_match_outcome.
    destruct (negb _); [exists m; repeat split; auto|].
    destruct (nth_error _ (Z.to_nat match_id)) as [mk|] eqn:Hk;
      [|exists m; repeat split; auto].
    simpl. rewrite V4_nth_error_set_nth
      by (apply nth_error_Some; congruence).
    destruct (Nat.eqb_spec (Z.to_nat match_id) i) as [E|Hne].
    + exists (V4.Match.record_score mk score). rewrite E in Hk.
      assert (mk = m) by congruence. subst mk. simpl. repeat split; auto.
    + exists m. repeat split; auto.
Qed.

Lemma ledger_is_append_only_witness :
  let w := snd (V4.create_match 0 singles v4_pool_1000_1005_1200) in
  exists m',
    nth_error (V4.Queue.matches (V4.queue
      (V4.prompt_user (V4.RecordOutcome 0 1 "21-19") w))) 0 = Some m' /\
    V4.Match.players m' = Flat 2%nat 1%nat.
Proof.
  cbv zeta. rewrite v4_singles_example.
  destruct (ledger_is_append_only (V4.RecordOutcome 0 1 "21-19")
              (V4.mkWorld players_1000_1005_1200
                 (V4.Queue.mk [("a", 0%nat)]
                    [V4.Match.mk 0 (Flat 2%nat 1%nat) singles None 0 None]))
              0 (V4.Match.mk 0 (Flat 2%nat 1%nat) singles None 0 None) eq_refl)
    as [m' [Hn [_ [Hp _]]]].
  exists m'. split; [exact Hn | exact Hp].
Defined.


(** ** v4.py: reading the players file *)









(** ** v1.py: the deque *)

(** X18. [Queue.add_player] of v1.py on an available player puts the
    player into the deque and re-sorts it: the new deque is in ascending
    order of rating and holds the former players and the new one; an
    unavailable player is refused and the deque stays as it is.  Players
    and ledger are untouched in both cases. *)
Theorem v1_add_player_keeps_the_deque_sorted (w : V1.world) (player : addr) :
  let h := V1.objects w in
  let w' := V1.add_player w player in
  V1.objects w' = h /\
  V1.Queue.matches (V1.queue w') = V1.Queue.matches (V1.queue w) /\
  if Player.availability (deref h player)
  then StronglySorted (fun a b => elo_at h a <= elo_at h b) (V1.Queue.players (V1.queue w'))
       /\ Permutation (V1.Queue.players (V1.queue w'))
                      (player :: V1.Queue.players (V1.queue w))
  else V1.Queue.players (V1.queue w') = V1.Queue.players (V1.queue w).
Proof.
  cbv zeta. unfold V1.add_player.
  destruct (Player.availability (deref (V1.objects w) player)); simpl; auto.
  repeat split; auto.
  - apply sorted_ascending.
  - rewrite sorted_perm. rewrite Permutation_app_comm. reflexivity.
Qed.

Lemma find_by_name_spec (h : heap) (name : string) (ps : list addr) :
  match V1_prompt.find_by_name h name ps with
  | Some p =>
      exists before after,
        ps = before ++ p :: after /\ name_at h p = name /\
        (forall q, In q before -> name_at h q <> name)
  | None => forall q, In q ps -> name_at h q <> name
  end.
Proof.
  induction ps as [|p rest IH]; simpl; [tauto|].
  fold (name_at h p).
  destruct (String.eqb (name_at h p) name) eqn:E.
  - apply String.eqb_eq in E. exists [], rest. simpl. tauto.
  - apply String.eqb_neq in E.
    destruct (V1_prompt.find_by_name h name rest) as [q|].
    + destruct IH as [before [after [-> [Hq Hb]]]].
      exists (p :: before), after. simpl. repeat split; auto.
      intros x [<-|Hx]; auto.
    + intros q [<-|Hq]; auto.
Qed.

Lemma remove_first_middle (before after : list addr) (p : addr) :
  ~ In p before -> remove_first p (before ++ p :: after) = Some (before ++ after).
Proof.
  induction before as [|x t IH]; simpl; intros Hn.
  - unfold addr_eqb. now rewrite Nat.eqb_refl.
  - destruct (addr_eqb x p) eqn:E.
    + apply addr_eqb_eq in E. tauto.
    + rewrite IH; tauto.
Qed.

(** X19. Choice "2" of v1.py removes the first player of the deque that has
    the name typed, and only that one: the players before and after it keep
    their order, later players of the same name stay, and nothing is
    raised.  When no player of the deque has the name it reports
    "Player not found." and changes nothing. *)
Theorem v1_remove_takes_the_first_of_that_name (w : V1.world) (name : string)
    (before after : list addr) (p : addr) :
  let h := V1.objects w in
  V1.Queue.players (V1.queue w) = before ++ p :: after ->
  name_at h p = name ->
  (forall q, In q before -> name_at h q <> name) ->
  V1_prompt.prompt_remove_player name w =
    (Return true,
     V1.mkWorld h (V1.Queue.mk (before ++ after) (V1.Queue.matches (V1.queue w)))) /\
  V1_prompt.prompt_view_player name w = Some (deref h p) /\
  forall w0 : V1.world,
    (forall q, In q (V1.Queue.players (V1.queue w0)) -> name_at (V1.objects w0) q <> name) ->
    V1_prompt.prompt_remove_player name w0 = (Return false, w0).
Proof.
  intros h Hpool Hname Hbefore.
  assert (Hfind : V1_prompt.find_by_name h name (V1.Queue.players (V1.queue w)) = Some p).
  { rewrite Hpool. clear Hpool. induction before as [|x t IH]; simpl.
    - fold (name_at h p). rewrite Hname. now rewrite String.eqb_refl.
    - fold (name_at h x).
      assert (Hx : name_at h x <> name) by (apply Hbefore; now left).
      apply String.eqb_neq in Hx. rewrite Hx. apply IH.
      intros q Hq. apply Hbefore. now right. }
  split; [|split].
  - unfold V1_prompt.prompt_remove_player, V1.remove_player. fold h. rewrite Hfind, Hpool.
    rewrite remove_first_middle; auto.
    intros Hin. now apply (Hbefore p Hin).
  - unfold V1_prompt.prompt_view_player. fold h. now rewrite Hfind.
  - intros w0 Hnone. unfold V1_prompt.prompt_remove_player.
    pose proof (find_by_name_spec (V1.objects w0) name (V1.Queue.players (V1.queue w0))) as Hs.
    revert Hs.
    destruct (V1_prompt.find_by_name (V1.objects w0) name
                (V1.Queue.players (V1.queue w0))) as [q|]; auto.
    intros [b [a [Hq [Hn _]]]].
    exfalso. apply (Hnone q); auto. rewrite Hq. apply in_or_app. right. now left.
Qed.

Lemma v1_remove_takes_the_first_of_that_name_witness :
  V1_prompt.prompt_remove_player "b" v1_pool_1000_1005_1200 =
  (Return true, V1.mkWorld players_1000_1005_1200 (V1.Queue.mk [0; 2]%nat [])).
Proof.
  destruct (v1_remove_takes_the_first_of_that_name v1_pool_1000_1005_1200 "b"
              [0%nat] [2%nat] 1%nat eq_refl eq_refl) as [H _].
  - simpl. intros q [<-|[]]. discriminate.
  - exact H.
Defined.

(** ** v1.py: the doubles search finds a least difference *)

Lemma search_inv_weaken (h : heap) (s : list addr) (P P' : quad -> Prop) st :
  (forall q, P' q -> P q) -> search_inv h s P st -> search_inv h s P' st.
Proof. intros Hsub [H1 H2]. split; auto. Qed.

(** A loop adds to the visited positions what each of its turns adds. *)
Lemma search_inv_loop {X : Type} (h : heap) (s : list addr)
    (f : (option R * option (addr * addr * addr * addr)) -> X ->
         (option R * option (addr * addr * addr * addr)))
    (Q : X -> quad -> Prop) (l : list X) :
  (forall P st x, In x l -> search_inv h s P st ->
     search_inv h s (fun q => P q \/ Q x q) (f st x)) ->
  forall P st, search_inv h s P st ->
  search_inv h s (fun q => P q \/ exists x, In x l /\ Q x q) (fold_left f l st).
Proof.
  induction l as [|x t IH]; intros Hstep P st Hinv; simpl.
  - apply (search_inv_weaken h s P); auto.
    intros q [Hq|[x [[] _]]]. exact Hq.
  - apply (search_inv_weaken h s
             (fun q => (P q \/ Q x q) \/ exists y, In y t /\ Q y q)).
    + intros q [Hq|[y [[<-|Hy] Hq]]]; eauto.
    + apply IH.
      * intros P' st' y Hy. apply Hstep. now right.
      * apply Hstep; auto. now left.
Qed.

Lemma search_inv_step (h : heap) (s : list addr) (i j k l : nat) P st :
  increasing (length s) (i, j, k, l) ->
  search_inv h s P st ->
  search_inv h s (fun q => P q \/ q = (i, j, k, l)) (V1.doubles_step h s i j k l st).
Proof.
  intros Hinc [Hle Hkept]. unfold V1.doubles_step.
  change (Rabs (sum_elo h [nth i s O; nth j s O] - sum_elo h [nth k s O; nth l s O]))
    with (quad_diff h s (i, j, k, l)).
  set (diff := quad_diff h s (i, j, k, l)) in *.
  destruct st as [[d0|] best]; cbn [fst snd lt_min] in *.
  - unfold Rltb. destruct (Rlt_dec diff d0) as [Hlt|Hge].
    + split; cbn [fst snd].
      * intros q [Hq| ->].
        -- destruct (Hle q Hq) as [d [Heq Hd]]. injection Heq as <-.
           exists diff. split; auto. lra.
        -- exists diff. split; auto. fold diff. lra.
      * exists (i, j, k, l). auto.
    + split; cbn [fst snd]; auto.
      intros q [Hq| ->]; auto.
      exists d0. split; auto. fold diff. lra.
  - split; cbn [fst snd].
    + intros q [Hq| ->].
      * destruct (Hle q Hq) as [d [Heq _]]. discriminate.
      * exists diff. split; auto. fold diff. lra.
    + exists (i, j, k, l). auto.
Qed.

Lemma doubles_search_minimal (h : heap) (s : list addr) :
  search_inv h s (increasing (length s)) (V1.doubles_search h s).
Proof.
  unfold V1.doubles_search. set (n := length s).
  apply (search_inv_weaken h s
    (fun q => False \/ exists i, In i (range 0 n) /\
       (fun i q => exists j, In j (range (i + 1) n) /\
         (fun j q => exists k, In k (range (j + 1) n) /\
           (fun k q => exists l, In l (range (k + 1) n) /\ q = (i, j, k, l)) k q) j q) i q)).
  { intros [[[i j] k] l] [Hij [Hjk [Hkl Hl]]]. right.
    exists i. split; [unfold range; apply in_seq; lia|].
    exists j. split; [unfold range; apply in_seq; lia|].
    exists k. split; [unfold range; apply in_seq; lia|].
    exists l. split; [unfold range; apply in_seq; lia | reflexivity]. }
  apply (search_inv_loop h s _ _ (range 0 n)).
  2:{ split; simpl; auto. intros q []. }
  intros P st i Hi Hinv. apply in_range in Hi.
  apply (search_inv_weaken h s
    (fun q => P q \/ exists j, In j (range (i + 1) n) /\
         (fun j q => exists k, In k (range (j + 1) n) /\
           (fun k q => exists l, In l (range (k + 1) n) /\ q = (i, j, k, l)) k q) j q));
    [tauto|].
  apply (search_inv_loop h s _ _ (range (i + 1) n)); auto.
  clear P st Hinv. intros P st j Hj Hinv. apply in_range in Hj.
  apply (search_inv_weaken h s
    (fun q => P q \/ exists k, In k (range (j + 1) n) /\
           (fun k q => exists l, In l (range (k + 1) n) /\ q = (i, j, k, l)) k q));
    [tauto|].
  apply (search_inv_loop h s _ _ (range (j + 1) n)); auto.
  clear P st Hinv. intros P st k Hk Hinv. apply in_range in Hk.
  apply (search_inv_weaken h s
    (fun q => P q \/ exists l, In l (range (k + 1) n) /\
                (fun l q => q = (i, j, k, l)) l q)); [tauto|].
  apply (search_inv_loop h s _ _ (range (k + 1) n)); auto.
  clear P st Hinv. intros P st l Hl Hinv. apply in_range in Hl.
  apply search_inv_step; auto.
  unfold increasing. fold n. lia.
Qed.

Lemma V1_create_doubles_exact (w : V1.world) :
  let h := V1.objects w in
  let pool := V1.Queue.players (V1.queue w) in
  let ledger := V1.Queue.matches (V1.queue w) in
  let s := sorted pool (elo_at h) false in
  NoDup pool -> (4 <= length pool)%nat ->
  exists i j k l dq,
    increasing (length s) (i, j, k, l) /\
    (forall q, increasing (length s) q ->
       quad_diff h s (i, j, k, l) <= quad_diff h s q) /\
    Permutation ([nth i s O; nth j s O; nth k s O; nth l s O] ++ dq) pool /\
    let m := V1.Match.mk (length ledger)
               (Teams [nth i s O; nth k s O] [nth j s O; nth l s O]) doubles None in
    V1.create_match doubles w =
    (Return (Some m),
     V1.mkWorld (mark_unavailable h [nth i s O; nth j s O; nth k s O; nth l s O])
                (V1.Queue.mk dq (ledger ++ [m]))).
Proof.
  intros h pool ledger s Hnd Hlen.
  assert (Hls : length s = length pool) by apply sorted_length.
  assert (Hps : Permutation s pool) by apply sorted_perm.
  assert (Hnds : NoDup s) by (apply (Permutation_NoDup (Permutation_sym Hps)); assumption).
  destruct (doubles_search_minimal h s) as [Hle Hkept].
  destruct (Hle (0, 1, 2, 3)%nat) as [d [Hfst _]]; [unfold increasing; lia|].
  rewrite Hfst in Hkept. destruct Hkept as [[[[i j] k] l] [Hinc [Hsnd Hd]]].
  pose proof Hinc as [Hij [Hjk [Hkl Hl]]].
  pose proof (sorted_ascending pool (elo_at h)) as Hsorted. fold s in Hsorted.
  assert (Hasc : forall x y, (x < y)%nat -> (y < length s)%nat ->
                 elo_at h (nth x s O) <= elo_at h (nth y s O))
    by (intros; now apply (StronglySorted_nth _ s O Hsorted)).
  assert (Hquad : NoDup [nth i s O; nth j s O; nth k s O; nth l s O]).
  { repeat constructor; simpl; intros H;
      repeat (destruct H as [H|H];
              [revert H; apply NoDup_nth_neq; auto; lia|]); auto. }
  destruct (remove_all_spec [nth i s O; nth j s O; nth k s O; nth l s O] pool)
    as [dq [Hrem Hperm]]; auto.
  { intros x [<-|[<-|[<-|[<-|[]]]]]; apply (Permutation_in _ Hps), nth_In; lia. }
  exists i, j, k, l, dq.
  split; [exact Hinc|]. split.
  { intros q Hq. destruct (Hle q Hq) as [d' [Hd' Hle']]. rewrite Hfst in Hd'.
    injection Hd' as <-. now rewrite <- Hd. }
  split; [exact Hperm|].
  unfold V1.create_match. fold h pool ledger.
  replace (length pool <? 2)%nat with false by (symmetry; apply Nat.ltb_ge; lia).
  fold s. rewrite Hsnd. cbn [quad_players]. rewrite Hrem. rewrite !mark_unavailable_elo.
  rewrite Rgtb_le.
  - now rewrite set_minus_quad.
  - pose proof (Hasc i k ltac:(lia) ltac:(lia)).
    pose proof (Hasc j l ltac:(lia) ltac:(lia)). lra.
Qed.

(** X20. The doubles search of v1.py is exhaustive: among all positions
    [i < j < k < l] of the sorted pool, the four players selected are at
    positions where the difference between the rating sum of the pair at
    [i, j] and that of the pair at [k, l] is the least. *)
Theorem v1_doubles_search_finds_a_least_difference (w : V1.world) :
  let h := V1.objects w in
  let pool := V1.Queue.players (V1.queue w) in
  let s := sorted pool (elo_at h) false in
  NoDup pool -> (4 <= length pool)%nat ->
  exists i j k l m w',
    V1.create_match doubles w = (Return (Some m), w') /\
    increasing (length s) (i, j, k, l) /\
    Permutation (members (V1.Match.players m))
                [nth i s O; nth j s O; nth k s O; nth l s O] /\
    forall i' j' k' l',
      (i' < j')%nat -> (j' < k')%nat -> (k' < l')%nat -> (l' < length s)%nat ->
      Rabs (sum_elo h [nth i s O; nth j s O] - sum_elo h [nth k s O; nth l s O]) <=
      Rabs (sum_elo h [nth i' s O; nth j' s O] - sum_elo h [nth k' s O; nth l' s O]).
Proof.
  intros h pool s Hnd Hlen.
  destruct (V1_create_doubles_exact w Hnd Hlen)
    as [i [j [k [l [dq [Hinc [Hmin [_ Hrun]]]]]]]].
  exists i, j, k, l. eexists. eexists.
  split; [exact Hrun|]. split; [exact Hinc|]. split.
  - simpl. apply perm_skip. apply perm_swap.
  - intros i' j' k' l' H1 H2 H3 H4.
    apply (Hmin (i', j', k', l')). unfold increasing. auto.
Qed.

Lemma v1_doubles_search_finds_a_least_difference_witness :
  exists m w', V1.create_match doubles v1_pool_four_1000 = (Return (Some m), w').
Proof.
  destruct (v1_doubles_search_finds_a_least_difference v1_pool_four_1000)
    as [i [j [k [l [m [w' [Hrun _]]]]]]].
  - simpl. repeat constructor; simpl; intuition discriminate.
  - simpl. lia.
  - exists m, w'. exact Hrun.
Defined.

(** X21. The two teams that [create_match('doubles')] of v1.py returns
    differ in rating sum by no more than the two pairs of any split the
    search looked at: team1 (positions i and k) against team2 (positions j
    and l) is at least as balanced as the pair at [i', j'] against the pair
    at [k', l'], for all [i' < j' < k' < l']. *)
Theorem v1_doubles_teams_are_no_worse_than_any_split (w : V1.world) :
  let h := V1.objects w in
  let pool := V1.Queue.players (V1.queue w) in
  let s := sorted pool (elo_at h) false in
  NoDup pool -> (4 <= length pool)%nat ->
  exists team1 team2 m w',
    V1.create_match doubles w = (Return (Some m), w') /\
    V1.Match.players m = Teams team1 team2 /\
    forall i' j' k' l',
      (i' < j')%nat -> (j' < k')%nat -> (k' < l')%nat -> (l' < length s)%nat ->
      Rabs (sum_elo h team1 - sum_elo h team2) <=
      Rabs (sum_elo h [nth i' s O; nth j' s O] - sum_elo h [nth k' s O; nth l' s O]).
Proof.
  intros h pool s Hnd Hlen.
  destruct (V1_create_doubles_exact w Hnd Hlen)
    as [i [j [k [l [dq [Hinc [Hmin [_ Hrun]]]]]]]].
  fold h pool s in Hinc, Hmin, Hrun.
  pose proof Hinc as [Hij [Hjk [Hkl Hl]]].
  pose proof (sorted_ascending pool (elo_at h)) as Hsorted. fold s in Hsorted.
  assert (Hasc : forall x y, (x < y)%nat -> (y < length s)%nat ->
                 elo_at h (nth x s O) <= elo_at h (nth y s O))
    by (intros; now apply (StronglySorted_nth _ s O Hsorted)).
  eexists. eexists. eexists. eexists.
  split; [exact Hrun|]. split; [reflexivity|].
  intros i' j' k' l' H1 H2 H3 H4.
  apply Rle_trans with (quad_diff h s (i, j, k, l)).
  - unfold quad_diff. rewrite !sum_elo_pair.
    pose proof (Hasc i j ltac:(lia) ltac:(lia)).
    pose proof (Hasc j k ltac:(lia) ltac:(lia)).
    pose proof (Hasc k l ltac:(lia) ltac:(lia)).
    unfold Rabs. repeat destruct (Rcase_abs _); lra.
  - apply (Hmin (i', j', k', l')). unfold increasing. auto.
Qed.

Lemma v1_doubles_teams_are_no_worse_than_any_split_witness :
  exists team1 team2 m w',
    V1.create_match doubles v1_pool_four_1000 = (Return (Some m), w') /\
    V1.Match.players m = Teams team1 team2.
Proof.
  destruct (v1_doubles_teams_are_no_worse_than_any_split v1_pool_four_1000)
    as [team1 [team2 [m [w' [Hrun [Hm _]]]]]].
  - simpl. repeat constructor; simpl; intuition discriminate.
  - simpl. lia.
  - exists team1, team2, m, w'. split; [exact Hrun | exact Hm].
Defined.

(** ** v1.py: recording a singles outcome *)


Lemma V1_index_of_nat (i len : nat) :
  (i < len)%nat -> V1.index_of (Z.of_nat i) len = Some i.
Proof.
  intros Hlt. unfold V1.index_of.
  replace (Z.of_nat i <? 0)%Z with false by (symmetry; apply Z.ltb_ge; lia).
  replace (0 <=? Z.of_nat i)%Z with true by (symmetry; apply Z.leb_le; lia).
  replace (Z.of_nat i <? Z.of_nat len)%Z with true by (symmetry; apply Z.ltb_lt; lia).
  simpl. now rewrite Nat2Z.id.
Qed.




(** X23. Choice "5" of v1.py indexes the ledger without a range check: a
    negative match id counts from the end, so [-k] records the outcome on
    the same match as [len(ledger) - k]; an id that is out of range on
    either side raises [IndexError] and changes nothing. *)
Theorem v1_negative_match_id_counts_from_the_end (w : V1.world) (k : nat) (o : Z) :
  (0 < k <= length (V1.Queue.matches (V1.queue w)))%nat ->
  V1.record_match_outcome (- Z.of_nat k) o w =
  V1.record_match_outcome (Z.of_nat (length (V1.Queue.matches (V1.queue w)) - k)) o w /\
  forall match_id : Z,
    (Z.of_nat (length (V1.Queue.matches (V1.queue w))) <= match_id \/
     match_id < - Z.of_nat (length (V1.Queue.matches (V1.queue w))))%Z ->
    V1.record_match_outcome match_id o w = (Raise IndexError, w).
Proof.
  intros Hk. set (len := length (V1.Queue.matches (V1.queue w))) in *.
  split.
  - unfold V1.record_match_outcome. fold len.
    rewrite (V1_index_of_nat (len - k) len) by lia.
    unfold V1.index_of.
    replace (- Z.of_nat k <? 0)%Z with true by (symmetry; apply Z.ltb_lt; lia).
    replace (0 <=? Z.of_nat len + - Z.of_nat k)%Z with true
      by (symmetry; apply Z.leb_le; lia).
    replace (Z.of_nat len + - Z.of_nat k <? Z.of_nat len)%Z with true
      by (symmetry; apply Z.ltb_lt; lia).
    simpl. replace (Z.to_nat (Z.of_nat len + - Z.of_nat k)) with (len - k)%nat by lia.
    reflexivity.
  - intros match_id Hout. unfold V1.record_match_outcome, V1.index_of. fold len.
    destruct (match_id <? 0)%Z eqn:E.
    + apply Z.ltb_lt in E.
      replace (0 <=? Z.of_nat len + match_id)%Z with false
        by (symmetry; apply Z.leb_gt; lia).
      reflexivity.
    + apply Z.ltb_ge in E.
      replace (match_id <? Z.of_nat len)%Z with false
        by (symmetry; apply Z.ltb_ge; lia).
      now rewrite andb_false_r.
Qed.

Lemma v1_negative_match_id_counts_from_the_end_witness :
  V1.record_match_outcome (-1) 1 v1_after_a_singles_match =
  V1.record_match_outcome 0 1 v1_after_a_singles_match.
Proof.
  destruct (v1_negative_match_id_counts_from_the_end v1_after_a_singles_match 1 1)
    as [H _].
  - simpl. lia.
  - exact H.
Defined.

(** ** v1.py: the pool of a session *)

Lemma remove_first_keeps (R0 : addr -> addr -> Prop) (p : addr) (l l' : list addr) :
  remove_first p l = Some l' ->
  incl l' l /\ (NoDup l -> NoDup l') /\ (StronglySorted R0 l -> StronglySorted R0 l').
Proof.
  revert l'; induction l as [|x t IH]; simpl; intros l' H; [discriminate|].
  destruct (addr_eqb x p).
  - injection H as <-. repeat split.
    + intros y Hy. now right.
    + intros Hnd. now inversion Hnd.
    + intros Hs. now inversion Hs.
  - destruct (remove_first p t) as [t'|]; [|discriminate].
    injection H as <-. destruct (IH t' eq_refl) as [Hincl [Hnd Hs]].
    repeat split.
    + intros y [<-|Hy]; [now left | right; now apply Hincl].
    + intros H. inversion H as [|? ? Hn Hnd']; subst. constructor; auto.
    + intros H. inversion H as [|? ? Hs' Hall]; subst. constructor; auto.
      rewrite Forall_forall in *. auto.
Qed.

Lemma remove_all_keeps (R0 : addr -> addr -> Prop) (ps : list addr) :
  forall l,
  incl (snd (V1.remove_all ps l)) l /\
  (NoDup l -> NoDup (snd (V1.remove_all ps l))) /\
  (StronglySorted R0 l -> StronglySorted R0 (snd (V1.remove_all ps l))).
Proof.
  induction ps as [|p rest IH]; intros l; simpl.
  - repeat split; auto. apply incl_refl.
  - destruct (remove_first p l) as [l1|] eqn:E; simpl.
    + destruct (remove_first_keeps R0 p l l1 E) as [Hincl [Hnd Hs]].
      destruct (IH l1) as [Hincl' [Hnd' Hs']].
      repeat split; auto. intros y Hy. auto.
    + repeat split; auto. apply incl_refl.
Qed.

Lemma StronglySorted_keys (key key' : addr -> R) (l : list addr) :
  (forall a, In a l -> key' a = key a) ->
  StronglySorted (fun a b => key a <= key b) l ->
  StronglySorted (fun a b => key' a <= key' b) l.
Proof.
  intros Heq Hs. induction Hs as [|x t Hs IH Hall]; constructor.
  - apply IH. intros a Ha. apply Heq. now right.
  - rewrite Forall_forall in *. intros y Hy.
    rewrite (Heq x) by now left. rewrite (Heq y) by now right. now apply Hall.
Qed.

(** The invariant only depends on the players of the pool and of the
    ledger as they are in the heap. *)
Lemma V1_inv_transfer (w : V1.world) (h' : heap) (pool' : list addr)
    (ledger' : list V1.Match.t) :
  V1_inv w ->
  length h' = length (V1.objects w) ->
  incl pool' (V1.Queue.players (V1.queue w)) ->
  NoDup pool' ->
  StronglySorted (fun a b => elo_at (V1.objects w) a <= elo_at (V1.objects w) b) pool' ->
  (forall a, In a pool' -> deref h' a = deref (V1.objects w) a) ->
  (forall m a, In m ledger' -> In a (members (V1.Match.players m)) ->
     (a < length (V1.objects w))%nat /\ ~ In a pool') ->
  V1_inv (V1.mkWorld h' (V1.Queue.mk pool' ledger')).
Proof.
  intros [_ [_ [Hpool _]]] Hlen Hincl Hnd Hsorted Hsame Hledger.
  unfold V1_inv. simpl. split; [exact Hnd|]. split.
  - apply (StronglySorted_keys (elo_at (V1.objects w))); auto.
    intros a Ha. unfold elo_at. now rewrite Hsame.
  - split.
    + intros a Ha. rewrite Hlen, Hsame by assumption. apply Hpool. now apply Hincl.
    + intros m a Hm Ha. rewrite Hlen. now apply (Hledger m a).
Qed.

Lemma V1_inv_add_new (w : V1.world) (p : Player.t) (z : Z) :
  Player.availability p = true -> Player.elo p = PyInt z ->
  V1_inv w ->
  V1_inv (V1.add_player (V1.mkWorld (V1.objects w ++ [p]) (V1.queue w))
                        (length (V1.objects w))).
Proof.
  intros Hav Hz [Hnd [Hsorted [Hpool Hledger]]].
  unfold V1.add_player. simpl. rewrite deref_alloc, Hav.
  set (h := V1.objects w) in *. set (pool := V1.Queue.players (V1.queue w)) in *.
  set (pool' := sorted (pool ++ [length h]) (elo_at (h ++ [p])) false).
  assert (Hperm : Permutation pool' (pool ++ [length h])) by apply sorted_perm.
  assert (Hfresh : ~ In (length h) pool).
  { intros Hin. destruct (Hpool _ Hin) as [Hlt _]. lia. }
  unfold V1_inv. simpl. fold pool'. split; [|split; [|split]].
  - apply (Permutation_NoDup (Permutation_sym Hperm)).
    apply NoDup_app; repeat split; auto.
    + repeat constructor. simpl. tauto.
    + intros x Hx [<-|[]]. contradiction.
  - apply sorted_ascending.
  - intros a Ha. apply (Permutation_in _ Hperm) in Ha.
    rewrite length_app. simpl.
    apply in_app_or in Ha as [Ha|[<-|[]]].
    + destruct (Hpool a Ha) as [Hlt [Ha1 Ha2]].
      rewrite deref_app_old by assumption. split; [lia | auto].
    + rewrite deref_alloc. split; [lia|]. split; eauto.
  - intros m a Hm Ha. destruct (Hledger m a Hm Ha) as [Hlt Hnot].
    rewrite length_app. simpl. split; [lia|].
    intros Hin. apply (Permutation_in _ Hperm) in Hin.
    apply in_app_or in Hin as [Hin|[<-|[]]]; [contradiction | lia].
Qed.

Lemma V1_inv_load (rows : csv_file) :
  forall w, V1_inv w -> V1_inv (snd (V1_prompt.load_players_from_csv rows w)).
Proof.
  induction rows as [|row rest IH]; intros w Hinv; simpl; auto.
  destruct row as [|id [|name [|elo [|x row']]]]; auto.
  destruct (py_int elo) as [z|]; auto.
  apply IH. now apply V1_inv_add_new with z.
Qed.

Lemma V1_inv_remove (w : V1.world) (p : addr) :
  V1_inv w -> V1_inv (snd (V1.remove_player w p)).
Proof.
  intros Hinv. unfold V1.remove_player.
  destruct (remove_first p (V1.Queue.players (V1.queue w))) as [l'|] eqn:E; auto.
  simpl. pose proof Hinv as [Hnd [Hsorted [Hpool Hledger]]].
  destruct (remove_first_keeps
              (fun a b => elo_at (V1.objects w) a <= elo_at (V1.objects w) b)
              p _ l' E) as [Hincl [Hnd' Hs']].
  apply (V1_inv_transfer w); auto.
  intros m a Hm Ha. destruct (Hledger m a Hm Ha) as [Hlt Hnot]. split; auto.
Qed.

Lemma V1_create_match_pool_from_remove_all (mt : match_type) (w : V1.world) :
  exists ps,
    V1.Queue.players (V1.queue (snd (V1.create_match mt w))) =
    snd (V1.remove_all ps (V1.Queue.players (V1.queue w))).
Proof.
  unfold V1.create_match.
  destruct (length (V1.Queue.players (V1.queue w)) <? 2)%nat; [exists []; reflexivity|].
  destruct mt.
  - destruct (snd (V1.singles_search _ _)) as [[p1 p2]|]; [|exists []; reflexivity].
    exists [p1; p2].
    destruct (V1.remove_all [p1; p2] _) as [[|] dq]; reflexivity.
  - destruct (snd (V1.doubles_search _ _)) as [[[[p1 p2] p3] p4]|]; [|exists []; reflexivity].
    exists [p1; p2; p3; p4].
    destruct (V1.remove_all [p1; p2; p3; p4] _) as [[|] dq]; reflexivity.
Qed.

Lemma V1_inv_after_selection (w : V1.world) (sel dq : list addr) (m : V1.Match.t) :
  V1_inv w ->
  Permutation (sel ++ dq) (V1.Queue.players (V1.queue w)) ->
  StronglySorted (fun a b => elo_at (V1.objects w) a <= elo_at (V1.objects w) b) dq ->
  (forall a, In a (members (V1.Match.players m)) -> In a sel) ->
  V1_inv (V1.mkWorld (mark_unavailable (V1.objects w) sel)
            (V1.Queue.mk dq (V1.Queue.matches (V1.queue w) ++ [m]))).
Proof.
  intros Hinv Hperm Hsorted Hmem.
  pose proof Hinv as [Hnd [_ [Hpool Hledger]]].
  assert (Hnd' : NoDup (sel ++ dq))
    by (apply (Permutation_NoDup (Permutation_sym Hperm)); assumption).
  assert (Hdisj : forall a, In a sel -> ~ In a dq).
  { intros a Hs Hd. apply NoDup_app_remove_l in Hnd' as Hdq.
    clear - Hnd' Hs Hd. induction sel as [|x t IH]; simpl in *; [tauto|].
    inversion Hnd' as [|? ? Hn Hnd'']; subst.
    destruct Hs as [->|Hs]; auto.
    apply Hn. apply in_or_app. now right. }
  apply (V1_inv_transfer w); auto.
  - apply mark_unavailable_length.
  - intros a Ha. apply (Permutation_in _ Hperm). apply in_or_app. now right.
  - now apply NoDup_app_remove_l in Hnd'.
  - intros a Ha. apply mark_unavailable_other. intros Hs. now apply (Hdisj a).
  - intros m0 a Hm0 Ha. apply in_app_or in Hm0 as [Hm0|[<-|[]]].
    + destruct (Hledger m0 a Hm0 Ha) as [Hlt Hnot]. split; auto.
      intros Hd. apply Hnot. apply (Permutation_in _ Hperm). apply in_or_app. now right.
    + assert (Hs : In a sel) by now apply Hmem.
      split; [|now apply Hdisj].
      apply Hpool. apply (Permutation_in _ Hperm). apply in_or_app. now left.
Qed.

Lemma V1_inv_create_match (mt : match_type) (w : V1.world) :
  V1_inv w -> V1_inv (snd (V1.create_match mt w)).
Proof.
  intros Hinv. pose proof Hinv as [Hnd [Hsorted _]].
  destruct (V1_create_match_pool_from_remove_all mt w) as [ps Hps].
  destruct (remove_all_keeps
              (fun a b => elo_at (V1.objects w) a <= elo_at (V1.objects w) b)
              ps (V1.Queue.players (V1.queue w))) as [_ [_ Hkeep]].
  rewrite <- Hps in Hkeep. specialize (Hkeep Hsorted).
  destruct (Nat.lt_ge_cases (length (V1.Queue.players (V1.queue w))) (needed mt))
    as [Hlt|Hge].
  - destruct mt; simpl in Hlt.
    + unfold V1.create_match.
      replace (length (V1.Queue.players (V1.queue w)) <? 2)%nat with true
        by (symmetry; apply Nat.ltb_lt; lia).
      exact Hinv.
    + rewrite V1_create_doubles_short by assumption. exact Hinv.
  - destruct mt; simpl in Hge.
    + destruct (V1_create_singles_spec w Hnd Hge)
        as [i [dq [_ [_ [_ [Hperm Hrun]]]]]].
      cbv zeta in Hrun. rewrite Hrun in Hkeep |- *.
      cbn [snd V1.queue V1.Queue.players] in Hkeep |- *.
      apply V1_inv_after_selection; auto.
    + destruct (V1_create_doubles_spec w Hnd Hge)
        as [p1 [p2 [p3 [p4 [dq [_ [_ [_ [Hperm Hrun]]]]]]]]].
      cbv zeta in Hrun. rewrite Hrun in Hkeep |- *.
      cbn [snd V1.queue V1.Queue.players] in Hkeep |- *.
      apply V1_inv_after_selection; auto.
      simpl. tauto.
Qed.

Lemma V1_in_set_nth {A : Type} (l : list A) (i : nat) (x y : A) :
  In y (V1.set_nth l i x) -> y = x \/ In y l.
Proof.
  revert i; induction l as [|z t IH]; intros [|i]; simpl; auto.
  - intros [<-|Hin]; auto.
  - intros [<-|Hin]; auto. destruct (IH i Hin); auto.
Qed.

Lemma V1_inv_record (match_id o : Z) (w : V1.world) :
  V1_inv w -> V1_inv (snd (V1.record_match_outcome match_id o w)).
Proof.
  intros Hinv. pose proof Hinv as [Hnd [Hsorted [Hpool Hledger]]].
  unfold V1.record_match_outcome.
  destruct (V1.index_of _ _) as [i|]; auto.
  destruct (nth_error _ i) as [m|] eqn:Hnth; auto.
  apply nth_error_In in Hnth.
  assert (Hm : forall a, In a (members (V1.Match.players m)) ->
                 ~ In a (V1.Queue.players (V1.queue w)))
    by (intros a Ha; now destruct (Hledger m a Hnth Ha)).
  assert (Hledger' : forall m' a (x : V1.Match.t),
            V1.Match.players x = V1.Match.players m ->
            In m' (V1.set_nth (V1.Queue.matches (V1.queue w)) i x) ->
            In a (members (V1.Match.players m')) ->
            (a < length (V1.objects w))%nat /\ ~ In a (V1.Queue.players (V1.queue w))).
  { intros m' a x Hx Hin Ha. apply V1_in_set_nth in Hin as [->|Hin].
    - rewrite Hx in Ha. now apply (Hledger m a).
    - now apply (Hledger m' a). }
  unfold V1.record_outcome.
  destruct (V1.Match.players m) as [p0 p1|team1 team2] eqn:Hp;
    cbn [snd V1.Match.players].
  - apply (V1_inv_transfer w); auto.
    + now rewrite update_ratings_length, !store_length.
    + apply incl_refl.
    + intros a Ha.
      assert (Hne0 : p0 <> a) by (intros ->; apply (Hm a); simpl; auto).
      assert (Hne1 : p1 <> a) by (intros ->; apply (Hm a); simpl; auto).
      rewrite update_ratings_other by (simpl; tauto).
      now rewrite !deref_store_other.
    + intros m' a Hin Ha. eapply Hledger'; [|exact Hin|exact Ha]; reflexivity.
  - apply (V1_inv_transfer w); auto.
    + apply incl_refl.
    + intros m' a Hin Ha. eapply Hledger'; [|exact Hin|exact Ha]; reflexivity.
Qed.

Lemma V1_inv_prompt_user (c : V1_prompt.command) (w : V1.world) :
  V1_inv w -> V1_inv (snd (V1_prompt.prompt_user c w)).
Proof.
  intros Hinv. destruct c as [name|name|mt|match_id o]; simpl.
  - unfold V1_prompt.prompt_add_player, alloc.
    now apply V1_inv_add_new with 1200%Z.
  - unfold V1_prompt.prompt_remove_player.
    destruct (V1_prompt.find_by_name _ _ _) as [p|]; auto.
    pose proof (V1_inv_remove w p Hinv) as H.
    destruct (V1.remove_player w p) as [[u|e] w']; auto.
  - pose proof (V1_inv_create_match mt w Hinv) as H.
    destruct (V1.create_match mt w) as [[u|e] w']; auto.
  - now apply V1_inv_record.
Qed.

Lemma V1_inv_run (cs : list V1_prompt.command) :
  forall w, V1_inv w -> V1_inv (snd (V1_prompt.run cs w)).
Proof.
  induction cs as [|c rest IH]; intros w Hinv; simpl; auto.
  pose proof (V1_inv_prompt_user c w Hinv) as H.
  destruct (V1_prompt.prompt_user c w) as [[u|e] w']; auto.
Qed.

Lemma V1_inv_empty : V1_inv V1_prompt.empty.
Proof.
  unfold V1_inv. simpl. repeat split; try constructor; tauto.
Qed.

Lemma V1_add_player_matches (w : V1.world) (p : addr) :
  V1.Queue.matches (V1.queue (V1.add_player w p)) = V1.Queue.matches (V1.queue w).
Proof.
  unfold V1.add_player. now destruct (Player.availability _).
Qed.

Lemma V1_load_matches (rows : csv_file) :
  forall w,
  V1.Queue.matches (V1.queue (snd (V1_prompt.load_players_from_csv rows w))) =
  V1.Queue.matches (V1.queue w).
Proof.
  induction rows as [|row rest IH]; intros w; simpl; auto.
  destruct row as [|id [|name [|elo [|x t]]]]; simpl; auto.
  destruct (py_int elo) as [z|]; simpl; auto.
  unfold alloc. rewrite IH. now rewrite V1_add_player_matches.
Qed.

Lemma V1_shaped_prompt_user (c : V1_prompt.command) (w : V1.world) :
  Forall V1_shaped (V1.Queue.matches (V1.queue w)) ->
  Forall V1_shaped (V1.Queue.matches (V1.queue (snd (V1_prompt.prompt_user c w)))).
Proof.
  intros Hs. destruct c as [name|name|mt|match_id o]; simpl.
  - unfold V1_prompt.prompt_add_player, alloc. now rewrite V1_add_player_matches.
  - unfold V1_prompt.prompt_remove_player.
    destruct (V1_prompt.find_by_name _ _ _) as [p|]; auto.
    unfold V1.remove_player.
    destruct (remove_first p _) as [l|]; auto.
  - unfold V1.create_match.
    destruct (length (V1.Queue.players (V1.queue w)) <? 2)%nat; auto.
    destruct mt.
    + destruct (snd (V1.singles_search _ _)) as [[p1 p2]|]; auto.
      destruct (V1.remove_all [p1; p2] _) as [[|] dq]; simpl; auto.
      apply Forall_app. split; auto. repeat constructor.
    + destruct (snd (V1.doubles_search _ _)) as [[[[p1 p2] p3] p4]|]; auto.
      destruct (V1.remove_all [p1; p2; p3; p4] _) as [[|] dq]; simpl; auto.
      apply Forall_app. split; auto. repeat constructor.
  - unfold V1.record_match_outcome.
    destruct (V1.index_of _ _) as [i|]; auto.
    destruct (nth_error _ i) as [m|] eqn:Hnth; auto.
    apply nth_error_In in Hnth.
    assert (Hm : V1_shaped m) by (rewrite Forall_forall in Hs; auto).
    assert (Hset : forall x, V1_shaped x ->
              Forall V1_shaped (V1.set_nth (V1.Queue.matches (V1.queue w)) i x)).
    { intros x Hx. rewrite Forall_forall in *. intros y Hy.
      apply V1_in_set_nth in Hy as [->|Hy]; auto. }
    unfold V1.record_outcome.
    destruct (V1.Match.players m) eqn:Hp; cbn [snd V1.queue V1.Queue.matches];
      apply Hset; unfold V1_shaped in *; simpl; now rewrite Hp in Hm.
Qed.

Lemma V1_shaped_run (cs : list V1_prompt.command) :
  forall w,
  Forall V1_shaped (V1.Queue.matches (V1.queue w)) ->
  Forall V1_shaped (V1.Queue.matches (V1.queue (snd (V1_prompt.run cs w)))).
Proof.
  induction cs as [|c rest IH]; intros w Hs; simpl; auto.
  pose proof (V1_shaped_prompt_user c w Hs) as H.
  destruct (V1_prompt.prompt_user c w) as [[u|e] w']; auto.
Qed.

(** X24. In every session of v1.py (the players file loaded, then any
    choices, up to the end or to the first exception) the deque holds
    distinct live players in ascending order of rating, each of them
    available and with the [int] rating it was given; no player of a match
    of the ledger is in the deque; and every match of the ledger is a pair
    of players when its type is singles and a pair of teams when it is
    doubles. *)
Theorem v1_session_pool_is_sorted_and_unrated
  (rows : csv_file) (cs : list V1_prompt.command) :
  let w := snd (V1_prompt.session rows cs) in
  let h := V1.objects w in
  let pool := V1.Queue.players (V1.queue w) in
  let ledger := V1.Queue.matches (V1.queue w) in
  NoDup pool /\
  StronglySorted (fun a b => elo_at h a <= elo_at h b) pool /\
  (forall a, In a pool ->
     (a < length h)%nat /\ Player.availability (deref h a) = true /\
     exists z, Player.elo (deref h a) = PyInt z) /\
  (forall m a, In m ledger -> In a (members (V1.Match.players m)) ->
     (a < length h)%nat /\ ~ In a pool) /\
  Forall V1_shaped ledger.
Proof.
  intros w h pool ledger.
  assert (H : V1_inv w /\ Forall V1_shaped ledger).
  { subst ledger h pool w. unfold V1_prompt.session.
    pose proof (V1_inv_load rows V1_prompt.empty V1_inv_empty) as Hl.
    pose proof (V1_load_matches rows V1_prompt.empty) as Hm.
    destruct (V1_prompt.load_players_from_csv rows V1_prompt.empty) as [[u|e] w0];
      simpl in Hl, Hm.
    - split; [now apply V1_inv_run|].
      apply V1_shaped_run. rewrite Hm. constructor.
    - split; auto. simpl. rewrite Hm. constructor. }
  destruct H as [[H1 [H2 [H3 H4]]] H5]. auto 10.
Qed.

(** ** v1.py: reading the players file *)




(** ** v3.py: the match history *)

Lemma NoDup_four {A : Type} (a b c d : A) :
  NoDup [a; b; c; d] ->
  a <> b /\ a <> c /\ a <> d /\ b <> c /\ b <> d /\ c <> d.
Proof.
  intros Hnd. repeat rewrite NoDup_cons_iff in Hnd. simpl in Hnd.
  intuition congruence.
Qed.

Lemma V3_record_match_same (h : heap) (self : addr) (opps : V3.opponents) (o : Z) :
  (self < length h)%nat ->
  deref (V3.record_match h self opps o) self =
  Player.append_history (deref h self)
    match opps with
    | V3.Several team =>
        HistOpponents (map (fun opponent => Player.name (deref h opponent)) team) o
    | V3.One opponent => HistOpponent (Player.name (deref h opponent)) o
    end.
Proof.
  intros Hlt. unfold V3.record_match. now rewrite deref_store_same.
Qed.

Lemma V3_record_match_other (h : heap) (self x : addr) (opps : V3.opponents) (o : Z) :
  self <> x -> deref (V3.record_match h self opps o) x = deref h x.
Proof.
  intros Hne. unfold V3.record_match. now rewrite deref_store_other.
Qed.

Lemma V3_record_match_length (h : heap) (self : addr) (opps : V3.opponents) (o : Z) :
  length (V3.record_match h self opps o) = length h.
Proof.
  unfold V3.record_match. apply store_length.
Qed.

Lemma V3_record_match_name (h : heap) (self x : addr) (opps : V3.opponents) (o : Z) :
  (self < length h)%nat ->
  Player.name (deref (V3.record_match h self opps o) x) = Player.name (deref h x).
Proof.
  intros Hlt. destruct (Nat.eq_dec self x) as [<-|Hne].
  - now rewrite V3_record_match_same.
  - now rewrite V3_record_match_other.
Qed.

(** X26. [Match.record_outcome] of v3.py on a doubles match of two teams of
    two distinct players returns (for v1.py see [V1_record_doubles_raises]):
    the outcome is stored in the match, each player of the first team gets one
    new history entry with the names of the second team and the outcome,
    each player of the second team one with the names of the first team and
    the complementary outcome, and nothing else changes: no rating, no
    name, no flag, no other player. *)
Theorem v3_doubles_outcome_is_recorded
    (m : V3.Match.t) (h : heap) (o : Z) (a b c d : addr) :
  V3.Match.match_type m = doubles ->
  V3.Match.players m = Teams [a; b] [c; d] ->
  NoDup [a; b; c; d] ->
  (forall x, In x [a; b; c; d] -> (x < length h)%nat) ->
  let name x := Player.name (deref h x) in
  exists h',
    V3.record_outcome m h o =
      (None, (V3.Match.mk (V3.Match.id m) (Teams [a; b] [c; d]) doubles (Some o), h')) /\
    length h' = length h /\
    deref h' a = Player.append_history (deref h a) (HistOpponents [name c; name d] o) /\
    deref h' b = Player.append_history (deref h b) (HistOpponents [name c; name d] o) /\
    deref h' c = Player.append_history (deref h c) (HistOpponents [name a; name b] (1 - o)) /\
    deref h' d = Player.append_history (deref h d) (HistOpponents [name a; name b] (1 - o)) /\
    (forall x, ~ In x [a; b; c; d] -> deref h' x = deref h x).
Proof.
  intros Ht Hp Hnd Hlive name.
  destruct (NoDup_four a b c d Hnd) as [Hab [Hac [Had [Hbc [Hbd Hcd]]]]].
  assert (La : (a < length h)%nat) by (apply Hlive; simpl; auto).
  assert (Lb : (b < length h)%nat) by (apply Hlive; simpl; auto).
  assert (Lc : (c < length h)%nat) by (apply Hlive; simpl; auto).
  assert (Ld : (d < length h)%nat) by (apply Hlive; simpl; auto).
  unfold V3.record_outcome. rewrite Ht, Hp. unfold V3.record_member. simpl nth_error.
  set (h1 := V3.record_match h a (V3.Several [c; d]) o).
  set (h2 := V3.record_match h1 b (V3.Several [c; d]) o).
  set (h3 := V3.record_match h2 c (V3.Several [a; b]) (1 - o)).
  set (h4 := V3.record_match h3 d (V3.Several [a; b]) (1 - o)).
  assert (L1 : length h1 = length h) by apply V3_record_match_length.
  assert (L2 : length h2 = length h)
    by (unfold h2; now rewrite V3_record_match_length).
  assert (L3 : length h3 = length h)
    by (unfold h3; now rewrite V3_record_match_length).
  assert (N1 : forall x, Player.name (deref h1 x) = name x)
    by (intros x; unfold h1; now rewrite V3_record_match_name).
  assert (N2 : forall x, Player.name (deref h2 x) = name x)
    by (intros x; unfold h2; rewrite V3_record_match_name; [apply N1|lia]).
  assert (N3 : forall x, Player.name (deref h3 x) = name x)
    by (intros x; unfold h3; rewrite V3_record_match_name; [apply N2|lia]).
  exists h4. split; [reflexivity|].
  split; [unfold h4; now rewrite V3_record_match_length|].
  split; [|split; [|split; [|split]]].
  - unfold h4, h3, h2. rewrite !V3_record_match_other by congruence.
    unfold h1. rewrite V3_record_match_same by assumption. reflexivity.
  - unfold h4, h3. rewrite !V3_record_match_other by congruence.
    unfold h2. rewrite V3_record_match_same by lia. simpl map. rewrite !N1.
    unfold h1. now rewrite V3_record_match_other by congruence.
  - unfold h4. rewrite !V3_record_match_other by congruence.
    unfold h3. rewrite V3_record_match_same by lia. simpl map. rewrite !N2.
    unfold h2, h1. now rewrite !V3_record_match_other by congruence.
  - unfold h4. rewrite V3_record_match_same by lia. simpl map. rewrite !N3.
    unfold h3, h2, h1. now rewrite !V3_record_match_other by congruence.
  - intros x Hx. simpl in Hx.
    unfold h4, h3, h2, h1. rewrite !V3_record_match_other; tauto.
Qed.

Lemma v3_doubles_outcome_is_recorded_witness :
  let m := V3.Match.mk 0 (Teams [0; 1] [2; 3])%nat doubles None in
  let h := players_four_1000 in
  let name x := Player.name (deref h x) in
  exists h',
    V3.record_outcome m h 1 =
      (None, (V3.Match.mk 0 (Teams [0; 1] [2; 3])%nat doubles (Some 1%Z), h')) /\
    length h' = length h /\
    deref h' 0%nat =
      Player.append_history (deref h 0%nat) (HistOpponents [name 2%nat; name 3%nat] 1) /\
    deref h' 1%nat =
      Player.append_history (deref h 1%nat) (HistOpponents [name 2%nat; name 3%nat] 1) /\
    deref h' 2%nat =
      Player.append_history (deref h 2%nat) (HistOpponents [name 0%nat; name 1%nat] (1 - 1)) /\
    deref h' 3%nat =
      Player.append_history (deref h 3%nat) (HistOpponents [name 0%nat; name 1%nat] (1 - 1)) /\
    (forall x, ~ In x [0; 1; 2; 3]%nat -> deref h' x = deref h x).
Proof.
  intros m h.
  apply (v3_doubles_outcome_is_recorded m h 1 0%nat 1%nat 2%nat 3%nat).
  - reflexivity.
  - reflexivity.
  - repeat constructor; simpl; lia.
  - simpl. lia.
Defined.

(** ** v4.py: the matches file *)








(** ** v1.py: the players file written at the end *)




